(** * GlobeMapQuiz: country ingestion and picking engine

    A shallow embedding of the country renderer ([CountryRenderer] in
    globe/countries.js), of the projection helpers of the globe renderer
    ([GlobeRenderer.latLonToPoint], [GlobeRenderer.pointToLatLon]) and of
    the camera target computed by [SceneManager.flyTo].

    Numbers.  JavaScript numbers are modelled by exact arithmetic:
    - integers (identifiers, colour channels, pixel indices) as [Z], with
      the 32-bit wrap-around of the bitwise operators written out;
    - coordinates that are only added, divided and compared as [Q];
    - coordinates that go through [Math.sin], [Math.cos], [Math.acos] and
      [Math.atan2] as [R].
    Rounding of IEEE doubles is outside the model. *)

From Stdlib Require Import ZArith QArith Qround Qminmax Lia.
From Stdlib Require Import String Ascii DecimalString.
From Stdlib Require Import Reals Lra Qreals.
From stdpp Require Import gmap strings list.

Set Warnings "-register-all".
Local Open Scope Z_scope.

(** ** JavaScript 32-bit integer operators *)

Module JS.

(** [ToInt32]: reduce modulo 2^32 into the signed range. *)
Definition ToInt32 (z : Z) : Z :=
  let m := z mod 2 ^ 32 in
  if 2 ^ 31 <=? m then m - 2 ^ 32 else m.

(** The shift count of [<<] and [>>] is taken modulo 32. *)
Definition shiftCount (n : Z) : Z := n mod 32.

(** [a & b] *)
Definition and (a b : Z) : Z := Z.land (ToInt32 a) (ToInt32 b).

(** [a | b] *)
Definition or (a b : Z) : Z := Z.lor (ToInt32 a) (ToInt32 b).

(** [a >> n], sign-propagating *)
Definition shr (a n : Z) : Z := Z.shiftr (ToInt32 a) (shiftCount n).

(** [a << n] *)
Definition shl (a n : Z) : Z := ToInt32 (Z.shiftl (ToInt32 a) (shiftCount n)).

(** [x || y] on an optional integer: [undefined] and [0] are falsy. *)
Definition orElse (x : option Z) (y : Z) : Z :=
  match x with
  | Some v => if v =? 0 then y else v
  | None => y
  end.

(** Decimal rendering of an integer inside a template literal. *)
Definition showZ (z : Z) : string := NilZero.string_of_int (Z.to_int z).

End JS.

(** ** Colour coding of identifiers *)

Record Color := mkColor { red : Z; green : Z; blue : Z }.

(** [_idToColor]: the three channels extracted from the identifier. *)
Definition _idToColor_channels (id : Z) : Color :=
  let r := JS.shr (JS.and id 0xFF0000) 16 in
  let g := JS.shr (JS.and id 0x00FF00) 8 in
  let b := JS.and id 0x0000FF in
  mkColor r g b.

(** [_idToColor]: the CSS colour string handed to the canvas. *)
Definition _idToColor (id : Z) : string :=
  let c := _idToColor_channels id in
  ("rgb(" ++ JS.showZ (red c) ++ "," ++ JS.showZ (green c) ++ ","
          ++ JS.showZ (blue c) ++ ")")%string.

(** [_colorToId] *)
Definition _colorToId (r g b : Z) : Z :=
  JS.or (JS.or (JS.shl r 16) (JS.shl g 8)) b.


(** ** Data model *)

(** A GeoJSON position [[lon, lat]]. *)
Record Position := mkPosition { p_lon : Q; p_lat : Q }.

(** The value of [geometry.coordinates]: arrays nested to any depth whose
    leaves are positions. *)
Inductive Coords :=
| Leaf (p : Position)
| Nested (items : list Coords).

Definition Ring := list Position.

(** A GeoJSON geometry: its [type] and its [coordinates].  Geometries of
    another type (a geometry collection has no [coordinates] member) are
    kept with whatever coordinates they carry. *)
Inductive Geometry :=
| Polygon (rings : list Ring)
| MultiPolygon (polygons : list (list Ring))
| OtherGeometry (type : string) (coords : option Coords).

Definition ringCoords (r : Ring) : Coords := Nested (map Leaf r).
Definition polygonCoords (p : list Ring) : Coords := Nested (map ringCoords p).

(** [geometry.coordinates] *)
Definition coordinates (g : Geometry) : option Coords :=
  match g with
  | Polygon rings => Some (polygonCoords rings)
  | MultiPolygon polygons => Some (Nested (map polygonCoords polygons))
  | OtherGeometry _ c => c
  end.

Record LatLon := mkLatLon { lat : Q; lon : Q }.

Record Bounds := mkBounds { minLat : Q; maxLat : Q; minLon : Q; maxLon : Q }.

(** An input record, as [topojson.feature] hands it over. *)
Module Feature.
Record t := mk {
  id : option Z;                     (* [feature.id], may be absent *)
  properties : option (option string); (* [feature.properties] and its [name] *)
  geometry : Geometry
}.
End Feature.

(** An entry of [countryData]. *)
Module Country.
Record t := mk {
  id : Z;
  name : string;
  geometry : Geometry;
  centroid : LatLon;
  bounds : Bounds
}.
End Country.

(** ** Geometric analysis *)

(** The three counters closed over by [processCoords] in
    [_calculateCentroid]. *)
Record CentroidAcc := mkCentroidAcc { totalLat : Q; totalLon : Q; count : Z }.

Module Centroid.
Fixpoint processCoords (acc : CentroidAcc) (coords : Coords) : CentroidAcc :=
  match coords with
  | Leaf p =>
      mkCentroidAcc (totalLat acc + p_lat p) (totalLon acc + p_lon p)
                    (count acc + 1)
  | Nested items => fold_left processCoords items acc
  end.
End Centroid.

Definition _calculateCentroid (geometry : Geometry) : LatLon :=
  let acc0 := mkCentroidAcc 0 0 0 in
  let acc := match coordinates geometry with
             | Some c => Centroid.processCoords acc0 c
             | None => acc0
             end in
  if 0 <? count acc
  then mkLatLon (totalLat acc / inject_Z (count acc))
                (totalLon acc / inject_Z (count acc))
  else mkLatLon 0 0.

Module BoundsOf.
Fixpoint processCoords (acc : Bounds) (coords : Coords) : Bounds :=
  match coords with
  | Leaf p =>
      mkBounds (Qmin (minLat acc) (p_lat p)) (Qmax (maxLat acc) (p_lat p))
               (Qmin (minLon acc) (p_lon p)) (Qmax (maxLon acc) (p_lon p))
  | Nested items => fold_left processCoords items acc
  end.
End BoundsOf.

Definition _calculateBounds (geometry : Geometry) : Bounds :=
  let acc0 := mkBounds 90 (-90) 180 (-180) in
  match coordinates geometry with
  | Some c => BoundsOf.processCoords acc0 c
  | None => acc0
  end.

(** The vertices of a coordinate tree, in the order [forEach] visits them. *)
Fixpoint vertices (coords : Coords) : list Position :=
  match coords with
  | Leaf p => [p]
  | Nested items => concat (map vertices items)
  end.

Definition geometryVertices (g : Geometry) : list Position :=
  match coordinates g with
  | Some c => vertices c
  | None => []
  end.

(** ** Ingestion *)

(** [props.name || `Country ${index}`]: an absent or empty name is falsy. *)
Definition nameOrElse (n : option string) (placeholder : string) : string :=
  match n with
  | Some s => if String.eqb s "" then placeholder else s
  | None => placeholder
  end.

(** [feature.properties || {}], then its [name] member. *)
Definition propsName (f : Feature.t) : option string :=
  match Feature.properties f with
  | Some n => n
  | None => None
  end.

(** The callback of [countries.features.map] in [load]. *)
Definition processFeature (feature : Feature.t) (index : nat) : Country.t :=
  Country.mk
    (JS.orElse (Feature.id feature) (Z.of_nat index))
    (nameOrElse (propsName feature) ("Country " ++ JS.showZ (Z.of_nat index))%string)
    (Feature.geometry feature)
    (_calculateCentroid (Feature.geometry feature))
    (_calculateBounds (Feature.geometry feature)).

(** [features.map((feature, index) => ...)] *)
Definition processFeatures (features : list Feature.t) : list Country.t :=
  imap (fun index feature => processFeature feature index) features.

(** ** Lookup maps *)

Definition lowerChar (c : ascii) : ascii :=
  let n := nat_of_ascii c in
  if ((65 <=? n) && (n <=? 90))%nat then ascii_of_nat (n + 32) else c.

(** [String.prototype.toLowerCase], on ASCII letters. *)
Fixpoint toLowerCase (s : string) : string :=
  match s with
  | EmptyString => EmptyString
  | String c rest => String (lowerChar c) (toLowerCase rest)
  end.

(** The [forEach] of [load] that fills [byId], starting from [new Map()]. *)
Definition buildById (countryData : list Country.t) : gmap Z Country.t :=
  fold_left (fun m country => <[Country.id country := country]> m)
            countryData ∅.

(** The same [forEach], for [byName]. *)
Definition buildByName (countryData : list Country.t) : gmap string Country.t :=
  fold_left (fun m country => <[toLowerCase (Country.name country) := country]> m)
            countryData ∅.

(** The [countries] branch of the application state. *)
Record Countries := mkCountries {
  loaded : bool;
  data : list Country.t;
  byId : gmap Z Country.t;
  byName : gmap string Country.t
}.

(** The state built by the [StateManager] constructor. *)
Definition initialCountries : Countries := mkCountries false [] ∅ ∅.

(** ** Lookup raster *)

(** One pixel of [ImageData.data]: four channels in 0..255. *)
Record Pixel := mkPixel { px_r : Z; px_g : Z; px_b : Z; px_a : Z }.

Record Canvas := mkCanvas {
  width : Z;
  height : Z;
  pixelAt : Z -> Z -> Pixel   (* column, row *)
}.

Definition transparentBlack : Pixel := mkPixel 0 0 0 0.
Definition opaqueBlack : Pixel := mkPixel 0 0 0 255.

(** [ctx.getImageData(x, y, 1, 1).data]: pixels outside the canvas read as
    transparent black. *)
Definition getImageData (c : Canvas) (x y : Z) : Pixel :=
  if (0 <=? x) && (x <? width c) && (0 <=? y) && (y <? height c)
  then pixelAt c x y
  else transparentBlack.

(** The canvas after [fillStyle = '#000000'; fillRect(0, 0, size, size)]. *)
Definition blackCanvas (size : Z) : Canvas :=
  mkCanvas size size (fun _ _ => opaqueBlack).

(** The renderer's own fields that the picking engine reads and writes. *)
Record Renderer := mkRenderer {
  lookupCanvas : option Canvas;
  countryData : list Country.t
}.

(** [new CountryRenderer()] *)
Definition newRenderer : Renderer := mkRenderer None [].

(** [THREE.Vector2], the texture coordinate of a hit. *)
Module Vector2.
Record t := mk { x : Q; y : Q }.
End Vector2.

Definition isSentinel (p : Pixel) : bool :=
  (px_r p =? 0) && (px_g p =? 0) && (px_b p =? 0).

(** [getCountryAtUV] *)
Definition getCountryAtUV (this : Renderer) (state : Countries) (uv : Vector2.t)
  : option Country.t :=
  match lookupCanvas this with
  | None => None
  | Some canvas =>
      let x := Qfloor (Vector2.x uv * inject_Z (width canvas)) in
      let y := Qfloor ((1 - Vector2.y uv) * inject_Z (height canvas)) in
      let pixel := getImageData canvas x y in
      if isSentinel pixel then None
      else
        let id := _colorToId (px_r pixel) (px_g pixel) (px_b pixel) in
        byId state !! id
  end.

Section Drawing.

(** The canvas rasteriser: [beginPath], [moveTo]/[lineTo] through the
    given points, [closePath], [fill] with the current [fillStyle]. It
    belongs to the browser and is taken as given; it keeps the size of
    the canvas. *)
Variable fillPath : string -> list (Q * Q) -> Canvas -> Canvas.

(** [project] inside [_drawGeometry] *)
Definition project (size : Z) (p : Position) : Q * Q :=
  (((p_lon p + 180) / 360) * inject_Z size,
   ((90 - p_lat p) / 180) * inject_Z size)%Q.

Definition drawRing (style : string) (size : Z) (ring : Ring) (c : Canvas) : Canvas :=
  fillPath style (map (project size) ring) c.

(** [drawPolygon]: only the ring at index 0 is filled. *)
Definition drawPolygon (style : string) (size : Z) (coords : list Ring) (c : Canvas)
  : Canvas :=
  match coords with
  | outer :: _ => drawRing style size outer c
  | [] => c
  end.

Definition _drawGeometry (style : string) (geometry : Geometry) (size : Z) (c : Canvas)
  : Canvas :=
  match geometry with
  | Polygon rings => drawPolygon style size rings c
  | MultiPolygon polygons =>
      fold_left (fun c' polygon => drawPolygon style size polygon c') polygons c
  | OtherGeometry _ _ => c
  end.

(** [_createLookupTexture]: the canvas it leaves in [lookupCanvas]. *)
Definition _createLookupTexture (this : Renderer) : Renderer :=
  let size := 2048 in
  let canvas :=
    fold_left (fun c country =>
                 _drawGeometry (_idToColor (Country.id country))
                               (Country.geometry country) size c)
              (countryData this) (blackCanvas size) in
  mkRenderer (Some canvas) (countryData this).

(** How [load] ends. *)
Inductive LoadOutcome :=
| Resolved (result : list Country.t)
| Rejected.

(** [load].  [fetched] is what reaches the lookup maps: the feature list
    that [fetch], [response.json()] and [topojson.feature] deliver, or
    [None] when one of them throws or when the callback of [map] throws on
    a record (one whose geometry is [null]). In each of these cases
    [countryData] has not been assigned and nothing has been published.
    The two calls that follow [state.update], [_createCountryMeshes] and
    [_createLookupTexture], are taken to return, as they do once the scene
    is set up and the browser hands out a 2D canvas; a throw from them
    would reject the load after the state has been published. The border
    meshes live in the scene and are left out. *)
Definition load (fetched : option (list Feature.t))
           (this : Renderer) (state : Countries)
  : LoadOutcome * Renderer * Countries :=
  let state1 := mkCountries false (data state) (byId state) (byName state) in
  match fetched with
  | None => (Rejected, this, state1)
  | Some features =>
      let countryData' := processFeatures features in
      let this1 := mkRenderer (lookupCanvas this) countryData' in
      let state2 := mkCountries true countryData'
                                (buildById countryData') (buildByName countryData') in
      let this2 := _createLookupTexture this1 in
      (Resolved countryData', this2, state2)
  end.

End Drawing.

(** A rasteriser that paints nothing, to run [load] where the painted
    pixels play no part. *)
Definition blankFill (style : string) (path : list (Q * Q)) (c : Canvas) : Canvas := c.

(** ** Projection between geographic coordinates and points of the globe *)

Module Vector3.
Record t := mk { x : R; y : R; z : R }.

Definition length (v : t) : R := sqrt (x v * x v + y v * y v + z v * z v).

(** [THREE.Vector3.normalize]: division by [length() || 1]. The length is
    exact here, so it is 0 for the zero vector only; in doubles the squared
    length of a very short vector underflows to 0 as well. *)
Definition normalize (v : t) : t :=
  let l := if Req_dec_T (length v) 0 then 1%R else length v in
  mk (x v * (1 / l)) (y v * (1 / l)) (z v * (1 / l)).
End Vector3.

Module Math.
(** [Math.atan2(y, x)]: the angle of the point [(x, y)]. The reals have
    one zero, read as +0: on the negative x axis the value is PI, where the
    code answers -PI for y = -0, and at the origin it is 0, the value for
    x = +0. *)
Definition atan2 (y x : R) : R :=
  if Rlt_dec 0 x then atan (y / x)
  else if Rlt_dec x 0 then
         if Rle_dec 0 y then (atan (y / x) + PI)%R else (atan (y / x) - PI)%R
  else if Rlt_dec 0 y then (PI / 2)%R
  else if Rlt_dec y 0 then (- (PI / 2))%R
  else 0%R.
End Math.

Record GeoPoint := mkGeoPoint { g_lat : R; g_lon : R }.

(** [CONFIG.globe.radius] *)
Definition globe_radius : R := 1%R.

(** [CountryRenderer._latLonToPoint] *)
Definition _latLonToPoint (lat lon radius : R) : Vector3.t :=
  let phi := ((90 - lat) * (PI / 180))%R in
  let theta := ((lon + 180) * (PI / 180))%R in
  Vector3.mk (- radius * sin phi * cos theta)%R
             (radius * cos phi)%R
             (radius * sin phi * sin theta)%R.

(** [GlobeRenderer.latLonToPoint] *)
Definition latLonToPoint (lat lon : R) : Vector3.t :=
  let phi := ((90 - lat) * (PI / 180))%R in
  let theta := ((lon + 180) * (PI / 180))%R in
  let x := (- globe_radius * sin phi * cos theta)%R in
  let y := (globe_radius * cos phi)%R in
  let z := (globe_radius * sin phi * sin theta)%R in
  Vector3.mk x y z.

(** [GlobeRenderer.pointToLatLon] *)
Definition pointToLatLon (point : Vector3.t) : GeoPoint :=
  let normalized := Vector3.normalize point in
  let lat := (90 - acos (Vector3.y normalized) * (180 / PI))%R in
  let lon := (Math.atan2 (Vector3.z normalized) (- Vector3.x normalized) * (180 / PI))%R in
  mkGeoPoint lat lon.

(** [SceneManager.flyTo]: the [targetPos] the camera is moved to, for a
    camera at the given [distance] from the origin. *)
Definition flyTo_targetPos (lat lon distance : R) : Vector3.t :=
  let phi := ((90 - lat) * (PI / 180))%R in
  let theta := ((lon + 180) * (PI / 180))%R in
  let targetX := (distance * sin phi * cos theta)%R in
  let targetY := (distance * cos phi)%R in
  let targetZ := (distance * sin phi * sin theta)%R in
  Vector3.mk targetX targetY targetZ.

(** ** Notions used to state the properties *)

(** What visiting one vertex does to the centroid counters. *)
Definition addVertex (acc : CentroidAcc) (p : Position) : CentroidAcc :=
  mkCentroidAcc (totalLat acc + p_lat p) (totalLon acc + p_lon p) (count acc + 1).

(** The running sum of a list of numbers, added left to right from 0. *)
Definition runningSum (l : list Q) : Q := fold_left Qplus l 0%Q.

(** The vertex average named by the specification: running sums of the
    latitudes and of the longitudes, each divided by the number of
    vertices; (0, 0) when there is no vertex. *)
Definition vertexMean (vs : list Position) : LatLon :=
  match vs with
  | [] => mkLatLon 0 0
  | _ :: _ =>
      mkLatLon (runningSum (map p_lat vs) / inject_Z (Z.of_nat (length vs)))
               (runningSum (map p_lon vs) / inject_Z (Z.of_nat (length vs)))
  end.

(** What visiting one vertex does to the running bounds. *)
Definition widen (acc : Bounds) (p : Position) : Bounds :=
  mkBounds (Qmin (minLat acc) (p_lat p)) (Qmax (maxLat acc) (p_lat p))
           (Qmin (minLon acc) (p_lon p)) (Qmax (maxLon acc) (p_lon p)).

(** The bounds of a geometry without vertices. *)
Definition invertedBounds : Bounds := mkBounds 90 (-90) 180 (-180).

(** The running minimum and maximum named by the specification, started
    from the inverted tuple. *)
Definition runningBounds (vs : list Position) : Bounds :=
  mkBounds (fold_left Qmin (map p_lat vs) 90%Q)
           (fold_left Qmax (map p_lat vs) (-90)%Q)
           (fold_left Qmin (map p_lon vs) 180%Q)
           (fold_left Qmax (map p_lon vs) (-180)%Q).

(** The identifier range of the data model: [0 <= id < 2^24 - 1]. *)
Definition validId (d : Z) : bool := (0 <=? d) && (d <? 2 ^ 24 - 1).

(** The identifier the specification assigns to a record: the declared
    one if present and in range, else the record's position. *)
Definition claimedId (declared : option Z) (index : nat) : Z :=
  match declared with
  | Some d => if validId d then d else Z.of_nat index
  | None => Z.of_nat index
  end.

(** The last entry of a list of countries that carries a given identifier. *)
Definition lastWithId (i : Z) (cs : list Country.t) : option Country.t :=
  last (filter (fun c => Country.id c = i) cs).

(** The placeholder name of the record at a position. *)
Definition placeholderName (index : nat) : string :=
  ("Country " ++ JS.showZ (Z.of_nat index))%string.

(** A canvas as [ImageData] delivers it: every channel of every pixel is a
    byte. *)
Definition isByte (z : Z) : Prop := 0 <= z < 256.

Definition byteCanvas (c : Canvas) : Prop :=
  forall x y,
    isByte (px_r (pixelAt c x y)) /\ isByte (px_g (pixelAt c x y))
    /\ isByte (px_b (pixelAt c x y)) /\ isByte (px_a (pixelAt c x y)).

(** A position whose coordinates are geographic: latitude within -90..90
    and longitude within -180..180. *)
Definition geographic (p : Position) : Prop :=
  (-90 <= p_lat p <= 90)%Q /\ (-180 <= p_lon p <= 180)%Q.

(** The last entry of a list of countries whose lower-cased name is the
    given key. *)
Definition lastWithName (key : string) (cs : list Country.t) : option Country.t :=
  last (filter (fun c => toLowerCase (Country.name c) = key) cs).

(** A geometry stripped of its hole rings: each polygon keeps its first
    ring only. *)
Definition outerOnly (g : Geometry) : Geometry :=
  match g with
  | Polygon rings => Polygon (take 1 rings)
  | MultiPolygon polygons => MultiPolygon (take 1 <$> polygons)
  | OtherGeometry t c => OtherGeometry t c
  end.

Definition withoutHoles (c : Country.t) : Country.t :=
  Country.mk (Country.id c) (Country.name c) (outerOnly (Country.geometry c))
             (Country.centroid c) (Country.bounds c).

(** ** Border lines *)

(** The radius of the border lines, [CONFIG.globe.radius * 1.001]. *)
Definition borderRadius : R := (globe_radius * (1001 / 1000))%R.

(** [processRing] inside [_geometryToLines]: the points of a ring, kept as
    a line when there are at least two. A line is modelled by the points
    its buffer geometry is set from. *)
Definition processRing (ring : Ring) : list (list Vector3.t) :=
  let points :=
    map (fun p => _latLonToPoint (Q2R (p_lat p)) (Q2R (p_lon p)) borderRadius) ring in
  if (1 <? length points)%nat then [points] else [].

(** [processPolygon] inside [_geometryToLines] *)
Definition processPolygon (coords : list Ring) : list (list Vector3.t) :=
  flat_map processRing coords.

(** [_geometryToLines] *)
Definition _geometryToLines (geometry : Geometry) : list (list Vector3.t) :=
  match geometry with
  | Polygon rings => processPolygon rings
  | MultiPolygon polygons => flat_map processPolygon polygons
  | OtherGeometry _ _ => []
  end.

(** All rings of a geometry, holes included, in order. *)
Definition allRings (g : Geometry) : list Ring :=
  match g with
  | Polygon rings => rings
  | MultiPolygon polygons => concat polygons
  | OtherGeometry _ _ => []
  end.

(** The points of a ring on the border sphere. *)
Definition ringPoints (ring : Ring) : list Vector3.t :=
  map (fun p => _latLonToPoint (Q2R (p_lat p)) (Q2R (p_lon p)) borderRadius) ring.

(** ** The texture coordinates of the globe mesh *)

(** The body of the loop of [GlobeRenderer._computeUVs]: the texture
    coordinate given to one vertex of the mesh. *)
Definition vertexUV (p : Vector3.t) : R * R :=
  let theta := Math.atan2 (Vector3.z p) (Vector3.x p) in
  let phi := acos (Vector3.y p / globe_radius) in
  (1 / 2 + theta / (2 * PI), 1 - phi / PI)%R.

(** [_computeUVs]: one coordinate pair per vertex, in order. *)
Definition _computeUVs (positions : list Vector3.t) : list (R * R) :=
  map vertexUV positions.

(** ** The flight of the camera *)

(** [THREE.Vector3.lerpVectors]. The arithmetic is exact here; in doubles
    the value at [alpha = 1] is [v2] up to rounding only. *)
Definition lerpVectors (v1 v2 : Vector3.t) (alpha : R) : Vector3.t :=
  Vector3.mk (Vector3.x v1 + (Vector3.x v2 - Vector3.x v1) * alpha)
             (Vector3.y v1 + (Vector3.y v2 - Vector3.y v1) * alpha)
             (Vector3.z v1 + (Vector3.z v2 - Vector3.z v1) * alpha)%R.

(** One run of [animateFly] inside [SceneManager.flyTo], [elapsed]
    milliseconds after the start: the camera position it sets, and whether
    it requests another frame. *)
Definition animateFly (startPos targetPos : Vector3.t) (duration elapsed : R)
  : Vector3.t * bool :=
  let t := Rmin (elapsed / duration) 1 in
  let eased := (1 - (1 - t) ^ 3)%R in
  (lerpVectors startPos targetPos eased,
   if Rlt_dec t 1 then true else false).

(** ** The state manager *)

(** The values held in [StateManager._state]: plain objects, used as maps
    from keys to values, and leaves, into which the walks of [get] and
    [set] are not followed. Numbers, strings, booleans and [null] are
    leaves. The arrays, Maps and Sets of the state, which the application
    reads and replaces whole, are kept as leaves too: a path that leads
    into one of them is outside the model (the code would read or assign a
    property of that object). *)
Inductive JsValue (P : Type) :=
| Prim (p : P)
| Obj (fields : gmap string (JsValue P)).

Arguments Prim {P} p.
Arguments Obj {P} fields.

Module StateManager.

(** [path.split('.')] *)
Fixpoint split (path : string) : list string :=
  match path with
  | EmptyString => [EmptyString]
  | String c rest =>
      if Ascii.eqb c "."%char then EmptyString :: split rest
      else match split rest with
           | h :: t => String c h :: t
           | [] => [String c EmptyString]
           end
  end.

(** [obj?.[key]]: [None] stands for [undefined]. *)
Definition property {P} (obj : option (JsValue P)) (key : string)
  : option (JsValue P) :=
  match obj with
  | Some (Obj fields) => fields !! key
  | _ => None
  end.

(** [get(path)] *)
Definition get {P} (_state : JsValue P) (path : string) : option (JsValue P) :=
  fold_left property (split path) (Some _state).

(** The walk [keys.reduce((obj, key) => obj[key], this._state)] of [set]
    followed by [target[lastKey] = value]. The target object is changed in
    place; on the tree this is the update along the walk. [None] stands for
    the [TypeError] thrown when the walk meets a missing key or a
    primitive, in which case nothing has been assigned. *)
Fixpoint assign {P} (obj : JsValue P) (keys : list string) (lastKey : string)
         (value : JsValue P) : option (JsValue P) :=
  match obj with
  | Prim _ => None
  | Obj fields =>
      match keys with
      | [] => Some (Obj (<[lastKey := value]> fields))
      | key :: rest =>
          match fields !! key with
          | Some child =>
              match assign child rest lastKey value with
              | Some child' => Some (Obj (<[key := child']> fields))
              | None => None
              end
          | None => None
          end
      end
  end.

(** [set(path, value)], as far as [_state] goes: the listeners that
    [_notify] calls and the copy kept in local storage are left out. *)
Definition set {P} (_state : JsValue P) (path : string) (value : JsValue P)
  : option (JsValue P) :=
  let keys := split path in
  assign _state (removelast keys) (default EmptyString (last keys)) value.

(** [update(updates)]: the entries are set one after the other. The
    result is the state reached and whether every [set] went through; a
    [set] that throws ends the loop and leaves the earlier ones applied. *)
Fixpoint update {P} (_state : JsValue P) (updates : list (string * JsValue P))
  : JsValue P * bool :=
  match updates with
  | [] => (_state, true)
  | (path, value) :: rest =>
      match set _state path value with
      | Some _state' => update _state' rest
      | None => (_state, false)
      end
  end.

End StateManager.

(** The four entries that [load] passes to [state.update]. *)
Definition loadUpdates {P} (loaded data byId byName : JsValue P)
  : list (string * JsValue P) :=
  [("countries.loaded"%string, loaded); ("countries.data"%string, data);
   ("countries.byId"%string, byId); ("countries.byName"%string, byName)].

(** ** Render callbacks *)

(** [SceneManager.onRender]: the callback is pushed at the end of
    [onRenderCallbacks]. Callbacks are told apart by their identity, here a
    number. *)
Definition onRender (onRenderCallbacks : list nat) (callback : nat) : list nat :=
  onRenderCallbacks ++ [callback].

(** The function that [onRender] returns: [indexOf] finds the first
    occurrence of the callback and [splice] removes it; nothing happens
    when there is none. *)
Fixpoint unsubscribe (onRenderCallbacks : list nat) (callback : nat) : list nat :=
  match onRenderCallbacks with
  | [] => []
  | cb :: rest =>
      if Nat.eqb cb callback then rest else cb :: unsubscribe rest callback
  end.

(** * Properties *)

(** ** Colour coding *)

Example idToColor_7 : _idToColor 7 = "rgb(0,0,7)"%string.
Proof. reflexivity. Qed.

Example idToColor_0x123456 : _idToColor 0x123456 = "rgb(18,52,86)"%string.
Proof. reflexivity. Qed.

Example colorToId_18_52_86 : _colorToId 18 52 86 = 0x123456.
Proof. reflexivity. Qed.

(** Above 24 bits the top byte is lost: 2^24 is painted black. *)
Example idToColor_2pow24 : _idToColor (2 ^ 24) = "rgb(0,0,0)"%string.
Proof. reflexivity. Qed.

Lemma ToInt32_small z : - 2 ^ 31 <= z < 2 ^ 31 -> JS.ToInt32 z = z.
Proof.
  intros Hz. unfold JS.ToInt32.
  destruct (Z.le_gt_cases 0 z) as [Hpos | Hneg].
  - rewrite Z.mod_small by lia.
    destruct (Z.leb_spec (2 ^ 31) z); lia.
  - replace (z mod 2 ^ 32) with (z + 2 ^ 32).
    + destruct (Z.leb_spec (2 ^ 31) (z + 2 ^ 32)); lia.
    + apply Z.mod_unique with (q := -1); lia.
Qed.

Lemma testbit_255 n : 0 <= n -> Z.testbit 255 n = (n <? 8).
Proof.
  intros Hn. change 255 with (Z.ones 8).
  destruct (Z.ltb_spec n 8).
  - apply Z.ones_spec_low; lia.
  - apply Z.ones_spec_high; lia.
Qed.

Lemma testbit_above24 id n : 0 <= id < 2 ^ 24 -> 24 <= n -> Z.testbit id n = false.
Proof.
  intros Hid Hn.
  rewrite <- (Z.mod_small id (2 ^ 24)) by lia.
  apply Z.mod_pow2_bits_high. lia.
Qed.

Lemma land_lt_pow2 a b k :
  0 <= a -> 0 <= b < 2 ^ k -> 0 <= Z.land a b < 2 ^ k.
Proof.
  intros Ha Hb.
  assert (H0 : 0 <= Z.land a b) by (apply Z.land_nonneg; lia).
  split; [assumption|].
  destruct (Z.eq_dec (Z.land a b) 0) as [E|E]; [rewrite E; lia|].
  destruct (Z.eq_dec b 0) as [->|Hb0]; [rewrite Z.land_0_r in E; lia|].
  apply Z.log2_lt_pow2; [lia|].
  pose proof (Z.log2_land a b Ha (proj1 Hb)) as Hl.
  assert (Z.log2 b < k) by (apply Z.log2_lt_pow2; lia).
  lia.
Qed.

Lemma lor_lt_pow2 a c k :
  0 <= a < 2 ^ k -> 0 <= c < 2 ^ k -> 0 <= Z.lor a c < 2 ^ k.
Proof.
  intros Ha Hc.
  assert (H0 : 0 <= Z.lor a c) by (apply Z.lor_nonneg; lia).
  split; [assumption|].
  destruct (Z.eq_dec (Z.lor a c) 0) as [E|E]; [rewrite E; lia|].
  apply Z.log2_lt_pow2; [lia|].
  rewrite Z.log2_lor by lia.
  destruct (Z.eq_dec a 0) as [->|Ha0]; destruct (Z.eq_dec c 0) as [->|Hc0].
  - rewrite Z.lor_0_r in E. lia.
  - rewrite Z.max_r by apply Z.log2_nonneg. apply Z.log2_lt_pow2; lia.
  - rewrite Z.max_l by apply Z.log2_nonneg. apply Z.log2_lt_pow2; lia.
  - apply Z.max_lub_lt; apply Z.log2_lt_pow2; lia.
Qed.

(** The channels are the three bytes of the identifier. *)
Lemma idToColor_channels_bytes id :
  0 <= id < 2 ^ 24 ->
  _idToColor_channels id =
    mkColor (Z.land (Z.shiftr id 16) 255) (Z.land (Z.shiftr id 8) 255) (Z.land id 255).
Proof.
  intros Hid. unfold _idToColor_channels, JS.shr, JS.and, JS.shiftCount.
  rewrite (ToInt32_small id) by lia.
  rewrite (ToInt32_small 16711680) by lia.
  rewrite (ToInt32_small 65280) by lia.
  rewrite (ToInt32_small 255) by lia.
  assert (Hr : 0 <= Z.land id 16711680 < 2 ^ 31) by (apply land_lt_pow2; lia).
  assert (Hg : 0 <= Z.land id 65280 < 2 ^ 31) by (apply land_lt_pow2; lia).
  rewrite (ToInt32_small (Z.land id 16711680)), (ToInt32_small (Z.land id 65280)) by lia.
  change (16 mod 32) with 16. change (8 mod 32) with 8.
  rewrite !Z.shiftr_land.
  reflexivity.
Qed.

Lemma channel_range x : 0 <= x -> 0 <= Z.land x 255 < 256.
Proof.
  intros Hx. change 255 with (Z.ones 8). rewrite Z.land_ones by lia.
  apply Z.mod_pos_bound. lia.
Qed.

(** Decoding three in-range channels: no wrap-around takes place. *)
Lemma colorToId_bytes r g b :
  0 <= r < 256 -> 0 <= g < 256 -> 0 <= b < 256 ->
  _colorToId r g b = Z.lor (Z.lor (Z.shiftl r 16) (Z.shiftl g 8)) b
  /\ 0 <= _colorToId r g b < 2 ^ 24.
Proof.
  intros Hr Hg Hb. unfold _colorToId, JS.or, JS.shl, JS.shiftCount.
  rewrite (ToInt32_small r), (ToInt32_small g), (ToInt32_small b) by lia.
  change (16 mod 32) with 16. change (8 mod 32) with 8.
  assert (Hr' : 0 <= Z.shiftl r 16 < 2 ^ 24) by (rewrite Z.shiftl_mul_pow2; lia).
  assert (Hg' : 0 <= Z.shiftl g 8 < 2 ^ 16) by (rewrite Z.shiftl_mul_pow2; lia).
  rewrite !(ToInt32_small (Z.shiftl r 16)), !(ToInt32_small (Z.shiftl g 8)) by lia.
  assert (H1 : 0 <= Z.lor (Z.shiftl r 16) (Z.shiftl g 8) < 2 ^ 24).
  { apply lor_lt_pow2; lia. }
  rewrite (ToInt32_small (Z.lor (Z.shiftl r 16) (Z.shiftl g 8))) by lia.
  split; [reflexivity|]. apply lor_lt_pow2; lia.
Qed.

(** Packing the three bytes of a 24-bit value gives the value back. *)
Lemma pack_bytes id :
  0 <= id < 2 ^ 24 ->
  Z.lor (Z.lor (Z.shiftl (Z.land (Z.shiftr id 16) 255) 16)
               (Z.shiftl (Z.land (Z.shiftr id 8) 255) 8))
        (Z.land id 255) = id.
Proof.
  intros Hid. apply Z.bits_inj'. intros n Hn.
  rewrite !Z.lor_spec, !Z.shiftl_spec, !Z.land_spec by lia.
  destruct (Z.ltb_spec n 8) as [H8|H8].
  - rewrite !(Z.testbit_neg_r _ (n - 16)), !(Z.testbit_neg_r _ (n - 8)) by lia.
    rewrite (testbit_255 n) by lia.
    destruct (Z.ltb_spec n 8); [|lia]. simpl. now rewrite andb_true_r.
  - rewrite (testbit_255 n) by lia.
    destruct (Z.ltb_spec n 8); [lia|]. rewrite andb_false_r, orb_false_r.
    destruct (Z.ltb_spec n 16) as [H16|H16].
    + rewrite !(Z.testbit_neg_r _ (n - 16)) by lia. simpl.
      rewrite Z.shiftr_spec, (testbit_255 (n - 8)) by lia.
      destruct (Z.ltb_spec (n - 8) 8); [|lia].
      rewrite andb_true_r. f_equal. lia.
    + rewrite !Z.shiftr_spec, (testbit_255 (n - 8)), (testbit_255 (n - 16)) by lia.
      destruct (Z.ltb_spec (n - 8) 8); [lia|]. rewrite andb_false_r, orb_false_r.
      replace (n - 16 + 16) with n by lia.
      destruct (Z.ltb_spec (n - 16) 8).
      * now rewrite andb_true_r.
      * rewrite andb_false_r. symmetry. apply testbit_above24; lia.
Qed.

Lemma colorToId_idToColor id :
  0 <= id < 2 ^ 24 ->
  let c := _idToColor_channels id in
  _colorToId (red c) (green c) (blue c) = id.
Proof.
  intros Hid. rewrite idToColor_channels_bytes by assumption. simpl.
  assert (H16 : 0 <= Z.shiftr id 16) by (apply Z.shiftr_nonneg; lia).
  assert (H8 : 0 <= Z.shiftr id 8) by (apply Z.shiftr_nonneg; lia).
  destruct (colorToId_bytes (Z.land (Z.shiftr id 16) 255) (Z.land (Z.shiftr id 8) 255)
                            (Z.land id 255)) as [-> _];
    try (apply channel_range; lia).
  apply pack_bytes; assumption.
Qed.

(** C2. For every identifier between 1 and 2^24 - 2, decoding the colour
    channels that [_idToColor] computes gives the identifier back. *)
Theorem color_roundtrip (id : Z) :
  1 <= id <= 2 ^ 24 - 2 ->
  let c := _idToColor_channels id in
  _colorToId (red c) (green c) (blue c) = id.
Proof.
  intros Hid. apply colorToId_idToColor. lia.
Qed.

Lemma color_roundtrip_witness :
  1 <= 0x123456 <= 2 ^ 24 - 2 /\
  _colorToId (red (_idToColor_channels 0x123456))
             (green (_idToColor_channels 0x123456))
             (blue (_idToColor_channels 0x123456)) = 0x123456.
Proof.
  split; [lia | apply (color_roundtrip 0x123456); lia].
Defined.

(** ** Geometric analysis *)

Example centroid_square :
  let square := [mkPosition 0 0; mkPosition 0 10; mkPosition 10 10; mkPosition 10 0] in
  (lat (_calculateCentroid (Polygon [square])) == 5)%Q
  /\ (lon (_calculateCentroid (Polygon [square])) == 5)%Q.
Proof. split; reflexivity. Qed.

Example bounds_square :
  let square := [mkPosition 0 0; mkPosition 0 10; mkPosition 10 10; mkPosition 10 0] in
  _calculateBounds (Polygon [square]) = mkBounds 0 10 0 10.
Proof. reflexivity. Qed.

Example centroid_two_parts :
  let west := [mkPosition (-20) 0; mkPosition (-10) 0] in
  let east := [mkPosition 10 6; mkPosition 20 6; mkPosition 30 3] in
  (lat (_calculateCentroid (MultiPolygon [[west]; [east]])) == 3)%Q
  /\ (lon (_calculateCentroid (MultiPolygon [[west]; [east]])) == 6)%Q.
Proof. split; reflexivity. Qed.

Example centroid_no_coordinates :
  _calculateCentroid (OtherGeometry "GeometryCollection" None) = mkLatLon 0 0.
Proof. reflexivity. Qed.

Example bounds_no_vertex : _calculateBounds (MultiPolygon [[[]]; []]) = invertedBounds.
Proof. reflexivity. Qed.

(** Induction over coordinate trees, with the hypothesis available for
    every item of a nested array. *)
Lemma Coords_nested_ind (P : Coords -> Prop) :
  (forall p, P (Leaf p)) ->
  (forall items, Forall P items -> P (Nested items)) ->
  forall c, P c.
Proof.
  intros HLeaf HNested.
  fix IH 1. intros [p | items].
  - apply HLeaf.
  - apply HNested. induction items as [| c items IHitems].
    + constructor.
    + constructor; [apply IH | apply IHitems].
Qed.

(** A [forEach] over nested arrays is a [forEach] over their vertices. *)
Lemma fold_nested {A} (step : A -> Coords -> A) (leaf : A -> Position -> A) items :
  Forall (fun c => forall acc, step acc c = fold_left leaf (vertices c) acc) items ->
  forall acc,
    fold_left step items acc = fold_left leaf (concat (map vertices items)) acc.
Proof.
  induction 1 as [| c items Hc _ IH]; intros acc; simpl.
  - reflexivity.
  - rewrite fold_left_app, <- Hc. apply IH.
Qed.

Lemma centroid_processCoords_vertices c :
  forall acc, Centroid.processCoords acc c = fold_left addVertex (vertices c) acc.
Proof.
  induction c as [p | items IH] using Coords_nested_ind; intros acc.
  - reflexivity.
  - simpl. apply (fold_nested Centroid.processCoords addVertex), IH.
Qed.

Lemma addVertex_fold vs :
  forall acc,
    fold_left addVertex vs acc =
      mkCentroidAcc (fold_left Qplus (map p_lat vs) (totalLat acc))
                    (fold_left Qplus (map p_lon vs) (totalLon acc))
                    (count acc + Z.of_nat (length vs)).
Proof.
  induction vs as [| v vs IH]; intros acc; simpl fold_left.
  - destruct acc; simpl. f_equal. lia.
  - rewrite IH. simpl. f_equal. lia.
Qed.

(** C3. The centroid of every geometry is the unweighted mean of the
    latitudes and longitudes of all its vertices, over all rings of all
    sub-polygons: the running sums divided by the number of vertices. A
    geometry without vertices gets the centroid (0, 0). *)
Theorem calculateCentroid_vertex_mean (geometry : Geometry) :
  _calculateCentroid geometry = vertexMean (geometryVertices geometry)
  /\ (geometryVertices geometry = [] -> _calculateCentroid geometry = mkLatLon 0 0).
Proof.
  assert (H : _calculateCentroid geometry = vertexMean (geometryVertices geometry)).
  { unfold _calculateCentroid, geometryVertices.
    destruct (coordinates geometry) as [c |]; [| reflexivity].
    rewrite centroid_processCoords_vertices, addVertex_fold. simpl.
    destruct (vertices c) as [| v vs]; [reflexivity |].
    destruct (Z.ltb_spec 0 (Z.of_nat (length (v :: vs)))) as [_ | Hle].
    - reflexivity.
    - simpl length in Hle. lia. }
  split; [exact H |].
  intros Hnil. rewrite H, Hnil. reflexivity.
Qed.

Lemma bounds_processCoords_vertices c :
  forall acc, BoundsOf.processCoords acc c = fold_left widen (vertices c) acc.
Proof.
  induction c as [p | items IH] using Coords_nested_ind; intros acc.
  - reflexivity.
  - simpl. apply (fold_nested BoundsOf.processCoords widen), IH.
Qed.

Lemma widen_fold vs :
  forall acc,
    fold_left widen vs acc =
      mkBounds (fold_left Qmin (map p_lat vs) (minLat acc))
               (fold_left Qmax (map p_lat vs) (maxLat acc))
               (fold_left Qmin (map p_lon vs) (minLon acc))
               (fold_left Qmax (map p_lon vs) (maxLon acc)).
Proof.
  induction vs as [| v vs IH]; intros acc; simpl fold_left.
  - destruct acc; reflexivity.
  - rewrite IH. reflexivity.
Qed.

Lemma running_min_le_seed l : forall a, (fold_left Qmin l a <= a)%Q.
Proof.
  induction l as [| x l IH]; intros a; simpl.
  - apply Qle_refl.
  - eapply Qle_trans; [apply IH | apply Q.le_min_l].
Qed.

Lemma running_max_ge_seed l : forall a, (a <= fold_left Qmax l a)%Q.
Proof.
  induction l as [| x l IH]; intros a; simpl.
  - apply Qle_refl.
  - eapply Qle_trans; [apply Q.le_max_l | apply IH].
Qed.

Lemma running_min_le_elem l x : In x l -> forall a, (fold_left Qmin l a <= x)%Q.
Proof.
  induction l as [| y l IH]; intros Hin a; simpl in *.
  - contradiction.
  - destruct Hin as [-> | Hin].
    + eapply Qle_trans; [apply running_min_le_seed | apply Q.le_min_r].
    + apply IH, Hin.
Qed.

Lemma running_max_ge_elem l x : In x l -> forall a, (x <= fold_left Qmax l a)%Q.
Proof.
  induction l as [| y l IH]; intros Hin a; simpl in *.
  - contradiction.
  - destruct Hin as [-> | Hin].
    + eapply Qle_trans; [apply Q.le_max_r | apply running_max_ge_seed].
    + apply IH, Hin.
Qed.

Lemma calculateBounds_running geometry :
  _calculateBounds geometry = runningBounds (geometryVertices geometry).
Proof.
  unfold _calculateBounds, geometryVertices.
  destruct (coordinates geometry) as [c |]; [| reflexivity].
  rewrite bounds_processCoords_vertices, widen_fold. reflexivity.
Qed.

(** C4. The bounds of every geometry are the running minimum and maximum
    of the latitudes and of the longitudes of all its vertices; without
    vertices they are the inverted tuple (90, -90, 180, -180); with at
    least one vertex, minLat <= maxLat and minLon <= maxLon. *)
Theorem calculateBounds_spec (geometry : Geometry) :
  let b := _calculateBounds geometry in
  let vs := geometryVertices geometry in
  b = runningBounds vs
  /\ (vs = [] -> b = invertedBounds)
  /\ (vs <> [] -> (minLat b <= maxLat b)%Q /\ (minLon b <= maxLon b)%Q).
Proof.
  intros b vs.
  assert (H : b = runningBounds vs) by apply calculateBounds_running.
  split; [exact H |]. split.
  - intros Hnil. rewrite H, Hnil. reflexivity.
  - intros Hne. rewrite H.
    destruct vs as [| v vs']; [congruence |].
    unfold runningBounds; cbn [minLat maxLat minLon maxLon].
    split.
    + apply Qle_trans with (p_lat v).
      * apply running_min_le_elem. now left.
      * apply running_max_ge_elem. now left.
    + apply Qle_trans with (p_lon v).
      * apply running_min_le_elem. now left.
      * apply running_max_ge_elem. now left.
Qed.

(** ** Ingestion *)

Example processFeatures_ids_and_names :
  let features :=
    [Feature.mk (Some 4) (Some (Some "Afghanistan"%string)) (Polygon []);
     Feature.mk None None (Polygon []);
     Feature.mk (Some 0) (Some (Some ""%string)) (Polygon []);
     Feature.mk (Some (-3)) (Some None) (Polygon [])] in
  (fun c => (Country.id c, Country.name c)) <$> processFeatures features
  = [(4, "Afghanistan"%string); (1, "Country 1"%string);
     (2, "Country 2"%string); (-3, "Country 3"%string)].
Proof. reflexivity. Qed.

Lemma processFeatures_lookup features index :
  processFeatures features !! index =
    (fun feature => processFeature feature index) <$> features !! index.
Proof. unfold processFeatures. apply list_lookup_imap. Qed.

Lemma processFeatures_length features :
  length (processFeatures features) = length features.
Proof. unfold processFeatures. apply length_imap. Qed.

(** C5, as the code has it. Every input record becomes exactly one
    country, at the record's position. Its id is the declared identifier
    when one is present and not zero, whatever its range, and the zero-based
    position otherwise; its name is the declared name when present and not
    empty, and the placeholder made of the position otherwise. *)
Theorem processFeatures_spec (features : list Feature.t) :
  length (processFeatures features) = length features
  /\ forall index feature,
      features !! index = Some feature ->
      exists country,
        processFeatures features !! index = Some country
        /\ Country.geometry country = Feature.geometry feature
        /\ (forall d, Feature.id feature = Some d -> d <> 0 -> Country.id country = d)
        /\ (Feature.id feature = None \/ Feature.id feature = Some 0 ->
            Country.id country = Z.of_nat index)
        /\ (forall n, propsName feature = Some n -> n <> ""%string ->
                      Country.name country = n)
        /\ (propsName feature = None \/ propsName feature = Some ""%string ->
            Country.name country = placeholderName index).
Proof.
  split; [apply processFeatures_length |].
  intros index feature Hlookup.
  exists (processFeature feature index).
  split; [rewrite processFeatures_lookup, Hlookup; reflexivity |].
  split; [reflexivity |].
  unfold processFeature; cbn [Country.id Country.name].
  repeat split.
  - intros d -> Hd. simpl. destruct (Z.eqb_spec d 0); congruence.
  - intros [-> | ->]; reflexivity.
  - intros n -> Hn. simpl. destruct (String.eqb_spec n ""); congruence.
  - intros [-> | ->]; reflexivity.
Qed.

(** A record that declares the identifier 2^24 keeps it: the identifier
    is neither replaced by the position, as the stated rule would have it,
    nor refused. *)
Lemma processFeatures_keeps_out_of_range_id :
  let feature := Feature.mk (Some (2 ^ 24)) (Some (Some "Testland"%string)) (Polygon []) in
  validId (2 ^ 24) = false
  /\ Country.id <$> processFeatures [feature] !! 0%nat = Some (2 ^ 24)
  /\ Country.id <$> processFeatures [feature] !! 0%nat
     <> Some (claimedId (Feature.id feature) 0).
Proof.
  repeat split. discriminate.
Qed.

(** ** Lookup maps *)

Lemma lastWithId_cons i c cs :
  lastWithId i (c :: cs) =
    match lastWithId i cs with
    | Some c' => Some c'
    | None => if decide (Country.id c = i) then Some c else None
    end.
Proof.
  unfold lastWithId. rewrite filter_cons.
  destruct (decide (Country.id c = i)) as [Heq | Hne].
  - apply last_cons.
  - now destruct (last _).
Qed.

Lemma fold_insert_lookup cs :
  forall (m : gmap Z Country.t) i,
    fold_left (fun m country => <[Country.id country := country]> m) cs m !! i =
      match lastWithId i cs with
      | Some c => Some c
      | None => m !! i
      end.
Proof.
  induction cs as [| c cs IH]; intros m i; simpl fold_left.
  - reflexivity.
  - rewrite IH, lastWithId_cons.
    destruct (lastWithId i cs) as [c' |]; [reflexivity |].
    destruct (decide (Country.id c = i)) as [<- | Hne].
    + apply lookup_insert_eq.
    + now apply lookup_insert_ne.
Qed.

(** Two features with the same identifier: the index is built without any
    error, and the identifier resolves to the later feature only. *)
Lemma buildById_duplicate_last_wins :
  let first := Feature.mk (Some 5) (Some (Some "Alpha"%string)) (Polygon []) in
  let second := Feature.mk (Some 5) (Some (Some "Beta"%string)) (Polygon []) in
  let countryData := processFeatures [first; second] in
  let result := load blankFill (Some [first; second]) newRenderer initialCountries in
  Country.id <$> countryData = [5; 5]
  /\ result.1.1 = Resolved countryData
  /\ Country.name <$> (byId result.2 !! 5) = Some "Beta"%string.
Proof.
  repeat split.
Qed.

Lemma buildById_lookup (countryData : list Country.t) (i : Z) :
  buildById countryData !! i = lastWithId i countryData.
Proof.
  unfold buildById. rewrite fold_insert_lookup, lookup_empty.
  now destruct (lastWithId i countryData).
Qed.

Lemma lastWithId_Some i cs c :
  lastWithId i cs = Some c -> c ∈ cs /\ Country.id c = i.
Proof.
  unfold lastWithId. intros H.
  apply last_Some_elem_of, list_elem_of_filter in H. tauto.
Qed.

Lemma lastWithId_None i cs :
  lastWithId i cs = None -> forall c, c ∈ cs -> Country.id c <> i.
Proof.
  unfold lastWithId. intros H c Hc Hid.
  apply last_None in H.
  assert (Hin : c ∈ filter (fun c => Country.id c = i) cs)
    by (apply list_elem_of_filter; tauto).
  rewrite H in Hin. now apply not_elem_of_nil in Hin.
Qed.

Lemma lastWithId_is_Some i cs c :
  c ∈ cs -> Country.id c = i -> exists c', lastWithId i cs = Some c'.
Proof.
  intros Hc Hid. destruct (lastWithId i cs) as [c' |] eqn:E; [eauto |].
  exfalso. eapply lastWithId_None; eauto.
Qed.

Lemma lastWithId_snoc cs c : lastWithId (Country.id c) (cs ++ [c]) = Some c.
Proof.
  unfold lastWithId. rewrite filter_app, filter_cons_True by reflexivity.
  rewrite filter_nil. apply last_snoc.
Qed.

(** C7, as the code has it. Building [byId] never fails. Each identifier
    is a key at most once and resolves to the last feature of the input
    that carries it: when two features share an identifier, the later one
    replaces the earlier one. *)
Theorem buildById_last_write_wins (countryData : list Country.t) :
  (forall i, buildById countryData !! i = lastWithId i countryData)
  /\ (forall later, buildById (countryData ++ [later]) !! Country.id later = Some later)
  /\ (forall earlier later rest,
        countryData = earlier :: rest ++ [later] ->
        Country.id earlier = Country.id later ->
        earlier <> later ->
        buildById countryData !! Country.id earlier <> Some earlier).
Proof.
  split; [apply buildById_lookup |]. split.
  - intros later. rewrite buildById_lookup. apply lastWithId_snoc.
  - intros earlier later rest -> Hid Hne.
    rewrite buildById_lookup, Hid, app_comm_cons, lastWithId_snoc.
    congruence.
Qed.

(** ** Loading *)

Section Loading.

Variable fillPath : string -> list (Q * Q) -> Canvas -> Canvas.

(** After a load that resolved, the published index is the one built
    from the published data, and the lookup raster exists. *)
Lemma load_resolved_state features this state :
  let result := load fillPath (Some features) this state in
  result.1.1 = Resolved (processFeatures features)
  /\ loaded result.2 = true
  /\ data result.2 = processFeatures features
  /\ byId result.2 = buildById (data result.2)
  /\ countryData result.1.2 = processFeatures features
  /\ exists canvas, lookupCanvas result.1.2 = Some canvas.
Proof.
  simpl. repeat split. eexists. reflexivity.
Qed.

(** A load whose fetch failed rejects and publishes nothing. *)
Lemma load_rejected_state this state :
  let result := load fillPath None this state in
  result.1.1 = Rejected
  /\ result.1.2 = this
  /\ loaded result.2 = false
  /\ data result.2 = data state
  /\ byId result.2 = byId state
  /\ byName result.2 = byName state.
Proof.
  simpl. repeat split.
Qed.

End Loading.

(** A batch whose only record declares the identifier 2^24: the load
    resolves, and the record is published under that identifier. *)
Lemma load_accepts_out_of_range_id :
  let feature := Feature.mk (Some (2 ^ 24)) (Some (Some "Testland"%string)) (Polygon []) in
  let result := load blankFill (Some [feature]) newRenderer initialCountries in
  validId (2 ^ 24) = false
  /\ result.1.1 <> Rejected
  /\ loaded result.2 = true
  /\ Country.name <$> (byId result.2 !! (2 ^ 24)) = Some "Testland"%string.
Proof.
  repeat split. discriminate.
Qed.

(** C6, as the code has it. [load] checks no identifier range and has no
    error for one. A record that declares an identifier of 2^24 - 1 or more
    is ingested like any other: in the state that [load] publishes for a
    delivered batch, [data] has one entry per record, the entry of the
    record is at the record's position and carries the declared id, and
    [byId] resolves that id to a published country that carries it. *)
Theorem load_checks_no_id_range
  (fillPath : string -> list (Q * Q) -> Canvas -> Canvas)
  (features : list Feature.t) (this : Renderer) (state : Countries) :
  let result := load fillPath (Some features) this state in
  loaded result.2 = true
  /\ length (data result.2) = length features
  /\ forall index feature d,
      features !! index = Some feature ->
      Feature.id feature = Some d ->
      2 ^ 24 - 1 <= d ->
      (exists country,
          data result.2 !! index = Some country /\ Country.id country = d)
      /\ (exists found,
             byId result.2 !! d = Some found
             /\ found ∈ data result.2
             /\ Country.id found = d).
Proof.
  intros result.
  destruct (load_resolved_state fillPath features this state)
    as (_ & Hloaded & Hdata & Hidx & _).
  fold result in Hloaded, Hdata, Hidx.
  split; [exact Hloaded |].
  split; [rewrite Hdata; apply processFeatures_length |].
  intros index feature d Hlookup Hid Hd.
  assert (Hat : processFeatures features !! index = Some (processFeature feature index))
    by (rewrite processFeatures_lookup, Hlookup; reflexivity).
  assert (Hcid : Country.id (processFeature feature index) = d).
  { unfold processFeature; cbn [Country.id]. rewrite Hid. simpl.
    destruct (Z.eqb_spec d 0); [lia | reflexivity]. }
  split.
  - exists (processFeature feature index). rewrite Hdata. auto.
  - rewrite Hidx, Hdata, buildById_lookup.
    assert (Hin : processFeature feature index ∈ processFeatures features)
      by (eapply list_elem_of_lookup_2; exact Hat).
    destruct (lastWithId_is_Some d _ _ Hin Hcid) as [c' Hc'].
    exists c'. split; [exact Hc' |].
    now apply lastWithId_Some in Hc'.
Qed.

(** ** Picking *)

Lemma isSentinel_true p :
  isSentinel p = true <-> px_r p = 0 /\ px_g p = 0 /\ px_b p = 0.
Proof.
  unfold isSentinel. rewrite !andb_true_iff, !Z.eqb_eq. tauto.
Qed.

(** C1. With a lookup raster in place and the index built by [load], a
    query at (u, v) reads the pixel at column floor(u * width) and row
    floor((1 - v) * height). If its colour is exactly (0, 0, 0) the answer
    is none. Otherwise the answer is a published feature whose id is the
    decoded colour (r << 16) | (g << 8) | b, or none when no published
    feature has that id. *)
Theorem getCountryAtUV_spec
  (this : Renderer) (state : Countries) (uv : Vector2.t) (canvas : Canvas) :
  lookupCanvas this = Some canvas ->
  byId state = buildById (data state) ->
  let x := Qfloor (Vector2.x uv * inject_Z (width canvas)) in
  let y := Qfloor ((1 - Vector2.y uv) * inject_Z (height canvas)) in
  let pixel := getImageData canvas x y in
  let id := _colorToId (px_r pixel) (px_g pixel) (px_b pixel) in
  (px_r pixel = 0 /\ px_g pixel = 0 /\ px_b pixel = 0 ->
   getCountryAtUV this state uv = None)
  /\ (~ (px_r pixel = 0 /\ px_g pixel = 0 /\ px_b pixel = 0) ->
      match getCountryAtUV this state uv with
      | Some country => country ∈ data state /\ Country.id country = id
      | None => forall country, country ∈ data state -> Country.id country <> id
      end).
Proof.
  intros Hcanvas Hindex x y pixel id.
  unfold getCountryAtUV. rewrite Hcanvas. fold x y pixel id.
  split.
  - intros Hblack. apply isSentinel_true in Hblack. now rewrite Hblack.
  - intros Hcolour.
    destruct (isSentinel pixel) eqn:E; [apply isSentinel_true in E; tauto |].
    rewrite Hindex, buildById_lookup.
    destruct (lastWithId id (data state)) as [c |] eqn:El.
    + now apply lastWithId_Some.
    + now apply lastWithId_None.
Qed.

(** A raster of four by four pixels whose left half carries the colour of
    identifier 7: a query in the left half finds the country, a query in
    the right half, on black, or outside the raster finds nothing. *)
Example getCountryAtUV_sample :
  let square := [mkPosition 0 0; mkPosition 0 10; mkPosition 10 10; mkPosition 10 0] in
  let features := [Feature.mk (Some 7) (Some (Some "Testland"%string)) (Polygon [square])] in
  let state := (load blankFill (Some features) newRenderer initialCountries).2 in
  let canvas := mkCanvas 4 4 (fun x _ => if x <? 2 then mkPixel 0 0 7 255 else opaqueBlack) in
  let this := mkRenderer (Some canvas) (data state) in
  Country.name <$> getCountryAtUV this state (Vector2.mk (1 # 4) (1 # 2))
  = Some "Testland"%string
  /\ getCountryAtUV this state (Vector2.mk (3 # 4) (1 # 2)) = None
  /\ getCountryAtUV this state (Vector2.mk 1 (1 # 2)) = None
  /\ getCountryAtUV this state (Vector2.mk (1 # 4) (3 # 2)) = None.
Proof. repeat split. Qed.

Lemma getCountryAtUV_spec_witness :
  let square := [mkPosition 0 0; mkPosition 0 10; mkPosition 10 10; mkPosition 10 0] in
  let features := [Feature.mk (Some 7) (Some (Some "Testland"%string)) (Polygon [square])] in
  let state := (load blankFill (Some features) newRenderer initialCountries).2 in
  let canvas := mkCanvas 4 4 (fun x _ => if x <? 2 then mkPixel 0 0 7 255 else opaqueBlack) in
  let this := mkRenderer (Some canvas) (data state) in
  let uv := Vector2.mk (1 # 4) (1 # 2) in
  let pixel := getImageData canvas (Qfloor (Vector2.x uv * inject_Z (width canvas)))
                            (Qfloor ((1 - Vector2.y uv) * inject_Z (height canvas))) in
  lookupCanvas this = Some canvas
  /\ byId state = buildById (data state)
  /\ (px_r pixel = 0 /\ px_g pixel = 0 /\ px_b pixel = 0 ->
      getCountryAtUV this state uv = None)
  /\ (~ (px_r pixel = 0 /\ px_g pixel = 0 /\ px_b pixel = 0) ->
      match getCountryAtUV this state uv with
      | Some country =>
          country ∈ data state
          /\ Country.id country = _colorToId (px_r pixel) (px_g pixel) (px_b pixel)
      | None =>
          forall country,
            country ∈ data state ->
            Country.id country <> _colorToId (px_r pixel) (px_g pixel) (px_b pixel)
      end).
Proof.
  intros square features state canvas this uv pixel.
  split; [reflexivity |]. split; [reflexivity |].
  apply (getCountryAtUV_spec this state uv canvas); reflexivity.
Defined.

(** C10. Without a lookup raster, that is before [load] has built one,
    [getCountryAtUV] answers none for every texture coordinate. *)
Theorem getCountryAtUV_before_load (this : Renderer) (state : Countries) (uv : Vector2.t) :
  lookupCanvas this = None ->
  getCountryAtUV this state uv = None.
Proof.
  intros Hnone. unfold getCountryAtUV. now rewrite Hnone.
Qed.

Lemma getCountryAtUV_before_load_witness :
  lookupCanvas newRenderer = None
  /\ getCountryAtUV newRenderer initialCountries (Vector2.mk (1 # 2) (1 # 2)) = None.
Proof.
  split; [reflexivity | apply (getCountryAtUV_before_load newRenderer); reflexivity].
Defined.

(** ** Projection *)

Local Open Scope R_scope.

Lemma phi_equator : (90 - 0) * (PI / 180) = PI / 2.
Proof. lra. Qed.

Lemma theta_greenwich : (0 + 180) * (PI / 180) = PI.
Proof. lra. Qed.

(** The point of latitude 0 and longitude 0 lies on the positive x axis. *)
Lemma latLonToPoint_origin : latLonToPoint 0 0 = Vector3.mk 1 0 0.
Proof.
  unfold latLonToPoint, globe_radius.
  rewrite phi_equator, theta_greenwich, sin_PI2, cos_PI2, cos_PI, sin_PI.
  f_equal; lra.
Qed.

Lemma length_unit_x : Vector3.length (Vector3.mk 1 0 0) = 1.
Proof.
  unfold Vector3.length; simpl.
  replace (1 * 1 + 0 * 0 + 0 * 0) with 1 by lra. apply sqrt_1.
Qed.

Lemma normalize_unit_x : Vector3.normalize (Vector3.mk 1 0 0) = Vector3.mk 1 0 0.
Proof.
  unfold Vector3.normalize. rewrite length_unit_x.
  destruct (Req_dec_T 1 0) as [Habs | _]; [lra |].
  simpl. f_equal; lra.
Qed.

Lemma atan2_neg_x_axis : Math.atan2 0 (- (1)) = PI.
Proof.
  unfold Math.atan2.
  destruct (Rlt_dec 0 (- (1))) as [Habs | _]; [lra |].
  destruct (Rlt_dec (- (1)) 0) as [_ | Habs]; [| lra].
  destruct (Rle_dec 0 0) as [_ | Habs]; [| lra].
  replace (0 / - (1)) with 0 by lra. rewrite atan_0. lra.
Qed.

(** [Math.atan2] recovers the angle of a point given in polar form. *)
Lemma atan2_polar s t :
  0 < s -> - PI < t <= PI -> Math.atan2 (s * sin t) (s * cos t) = t.
Proof.
  intros Hs [Hlo Hhi]. pose proof PI_RGT_0 as Hpi. unfold Math.atan2.
  destruct (Rlt_dec 0 (s * cos t)) as [Hx | Hx].
  - (* right half plane *)
    assert (Hc : 0 < cos t) by nra.
    assert (Ht : - (PI / 2) < t < PI / 2).
    { split.
      - destruct (Rlt_dec (- (PI / 2)) t) as [|Hn]; [assumption | exfalso].
        destruct (Req_dec t (- (PI / 2))) as [-> | Hne].
        + rewrite cos_neg, cos_PI2 in Hc. lra.
        + assert (Hneg : cos (- t) < 0) by (apply cos_lt_0; lra).
          rewrite cos_neg in Hneg. lra.
      - destruct (Rlt_dec t (PI / 2)) as [|Hn]; [assumption | exfalso].
        destruct (Req_dec t (PI / 2)) as [-> | Hne].
        + rewrite cos_PI2 in Hc. lra.
        + assert (Hneg : cos t < 0) by (apply cos_lt_0; lra). lra. }
    replace (s * sin t / (s * cos t)) with (tan t)
      by (unfold tan; field; lra).
    now apply atan_tan.
  - destruct (Rlt_dec (s * cos t) 0) as [Hx' | Hx'].
    + (* left half plane *)
      assert (Hc : cos t < 0) by nra.
      destruct (Rle_dec 0 (s * sin t)) as [Hy | Hy].
      * assert (Hsin : 0 <= sin t) by nra.
        assert (Ht : PI / 2 < t).
        { destruct (Rlt_dec (PI / 2) t) as [|Hn]; [assumption | exfalso].
          destruct (Rlt_dec (- (PI / 2)) t) as [Hgt | Hle].
          - destruct (Req_dec t (PI / 2)) as [-> | Hne].
            + rewrite cos_PI2 in Hc. lra.
            + assert (0 < cos t) by (apply cos_gt_0; lra). lra.
          - destruct (Req_dec t (- (PI / 2))) as [-> | Hne].
            + rewrite cos_neg, cos_PI2 in Hc. lra.
            + assert (sin t < 0) by (apply sin_lt_0_var; lra). lra. }
        replace (s * sin t / (s * cos t)) with (tan (t - PI)).
        -- rewrite atan_tan by lra. lra.
        -- unfold tan. rewrite sin_minus, cos_minus, sin_PI, cos_PI. field. lra.
      * assert (Hsin : sin t < 0) by nra.
        assert (Ht : t < - (PI / 2)).
        { destruct (Rlt_dec t (- (PI / 2))) as [|Hn]; [assumption | exfalso].
          destruct (Rle_dec 0 t) as [Hge | Hlt].
          - assert (0 <= sin t) by (apply sin_ge_0; lra). lra.
          - destruct (Req_dec t (- (PI / 2))) as [-> | Hne].
            + rewrite cos_neg, cos_PI2 in Hc. lra.
            + assert (0 < cos t) by (apply cos_gt_0; lra). lra. }
        replace (s * sin t / (s * cos t)) with (tan (t + PI)).
        -- rewrite atan_tan by lra. lra.
        -- unfold tan. rewrite neg_sin, neg_cos. field. lra.
    + (* on the vertical axis *)
      assert (Hc : cos t = 0) by nra.
      destruct (Rlt_dec 0 (s * sin t)) as [Hy | Hy].
      * assert (Hsin : 0 < sin t) by nra.
        destruct (Rtotal_order t (PI / 2)) as [Hlt | [-> | Hgt]]; [| reflexivity |].
        -- exfalso. destruct (Rlt_dec (- (PI / 2)) t) as [Hgt | Hle].
           ++ assert (0 < cos t) by (apply cos_gt_0; lra). lra.
           ++ destruct (Req_dec t (- (PI / 2))) as [-> | Hne].
              ** rewrite sin_neg, sin_PI2 in Hsin. lra.
              ** assert (cos (- t) < 0) by (apply cos_lt_0; lra).
                 rewrite cos_neg in *. lra.
        -- exfalso. assert (cos t < 0) by (apply cos_lt_0; lra). lra.
      * destruct (Rlt_dec (s * sin t) 0) as [Hy' | Hy'].
        -- assert (Hsin : sin t < 0) by nra.
           destruct (Rtotal_order t (- (PI / 2))) as [Hlt | [-> | Hgt]]; [| reflexivity |].
           ++ exfalso. assert (cos (- t) < 0) by (apply cos_lt_0; lra).
              rewrite cos_neg in *. lra.
           ++ exfalso. destruct (Rlt_dec t (PI / 2)) as [Hlt | Hge].
              ** assert (0 < cos t) by (apply cos_gt_0; lra). lra.
              ** destruct (Req_dec t (PI / 2)) as [-> | Hne].
                 --- rewrite sin_PI2 in Hsin. lra.
                 --- assert (cos t < 0) by (apply cos_lt_0; lra). lra.
        -- exfalso. assert (Hsin : sin t = 0) by nra.
           pose proof (sin2_cos2 t) as H1. unfold Rsqr in H1.
           rewrite Hc, Hsin in H1. lra.
Qed.

Lemma latLonToPoint_unit lat lon :
  Vector3.length (latLonToPoint lat lon) = 1.
Proof.
  unfold Vector3.length, latLonToPoint, globe_radius; simpl.
  set (phi := (90 - lat) * (PI / 180)). set (theta := (lon + 180) * (PI / 180)).
  pose proof (sin2_cos2 phi) as Hp. pose proof (sin2_cos2 theta) as Ht.
  unfold Rsqr in Hp, Ht.
  replace (- (1) * sin phi * cos theta * (- (1) * sin phi * cos theta)
           + 1 * cos phi * (1 * cos phi)
           + 1 * sin phi * sin theta * (1 * sin phi * sin theta))
    with (sin phi * sin phi * (sin theta * sin theta + cos theta * cos theta)
          + cos phi * cos phi) by ring.
  rewrite Ht, Rmult_1_r, Hp. apply sqrt_1.
Qed.

(** Unprojecting a projected point gives the latitude back, and the
    longitude turned by half a circle. *)
Lemma pointToLatLon_latLonToPoint_shifted lat lon :
  - 90 < lat < 90 ->
  - 180 < lon <= 180 ->
  pointToLatLon (latLonToPoint lat lon)
  = mkGeoPoint lat (if Rle_dec lon 0 then lon + 180 else lon - 180).
Proof.
  intros Hlat Hlon. pose proof PI_RGT_0 as Hpi.
  unfold pointToLatLon, Vector3.normalize.
  rewrite latLonToPoint_unit.
  destruct (Req_dec_T 1 0) as [Habs | _]; [lra |].
  unfold latLonToPoint, globe_radius. cbn [Vector3.x Vector3.y Vector3.z].
  set (phi := (90 - lat) * (PI / 180)). set (theta := (lon + 180) * (PI / 180)).
  assert (Hphi : 0 < phi < PI).
  { unfold phi. split.
    - apply Rmult_lt_0_compat; lra.
    - replace PI with (180 * (PI / 180)) at 2 by lra.
      apply Rmult_lt_compat_r; lra. }
  assert (Hs : 0 < sin phi) by (apply sin_gt_0; lra).
  f_equal.
  - replace (1 * cos phi * (1 / 1)) with (cos phi) by lra.
    rewrite acos_cos by lra. unfold phi. field. lra.
  - replace (1 * sin phi * sin theta * (1 / 1)) with (sin phi * sin theta) by lra.
    replace (- (- (1) * sin phi * cos theta * (1 / 1))) with (sin phi * cos theta) by lra.
    destruct (Rle_dec lon 0) as [Hle | Hgt].
    + assert (Ht : - PI < theta <= PI).
      { unfold theta. split.
        - apply Rlt_trans with 0; [lra |]. apply Rmult_lt_0_compat; lra.
        - replace PI with (180 * (PI / 180)) at 2 by lra.
          apply Rmult_le_compat_r; lra. }
      rewrite atan2_polar by assumption. unfold theta. field. lra.
    + assert (Ht : - PI < theta - 2 * PI <= PI).
      { unfold theta. split.
        - assert (180 * (PI / 180) < (lon + 180) * (PI / 180))
            by (apply Rmult_lt_compat_r; lra). lra.
        - assert ((lon + 180) * (PI / 180) <= 360 * (PI / 180))
            by (apply Rmult_le_compat_r; lra). lra. }
      replace (sin theta) with (sin (theta - 2 * PI))
        by (rewrite sin_minus, sin_2PI, cos_2PI; ring).
      replace (cos theta) with (cos (theta - 2 * PI))
        by (rewrite cos_minus, sin_2PI, cos_2PI; ring).
      rewrite atan2_polar by assumption. unfold theta. field. lra.
Qed.

(** C8, at latitude 0 and longitude 0: projecting and unprojecting gives
    longitude 180, half a turn away from the longitude that went in. *)
Theorem pointToLatLon_latLonToPoint_origin :
  pointToLatLon (latLonToPoint 0 0) = mkGeoPoint 0 180
  /\ g_lon (pointToLatLon (latLonToPoint 0 0)) - 0 = 180.
Proof.
  assert (H : pointToLatLon (latLonToPoint 0 0) = mkGeoPoint 0 180).
  { rewrite latLonToPoint_origin. unfold pointToLatLon.
    rewrite normalize_unit_x. cbn [Vector3.x Vector3.y Vector3.z].
    rewrite acos_0, atan2_neg_x_axis.
    pose proof PI_neq0. f_equal; field; assumption. }
  split; [exact H |]. rewrite H. simpl. lra.
Qed.

(** C9, over all inputs and at latitude 0, longitude 0, radius 1: the
    camera target of [flyTo] has the x coordinate of [_latLonToPoint] with
    the opposite sign, and the same y and z. *)
Theorem flyTo_targetPos_mirrors_latLonToPoint :
  (forall lat lon radius,
      Vector3.x (flyTo_targetPos lat lon radius)
      = - Vector3.x (_latLonToPoint lat lon radius)
      /\ Vector3.y (flyTo_targetPos lat lon radius)
         = Vector3.y (_latLonToPoint lat lon radius)
      /\ Vector3.z (flyTo_targetPos lat lon radius)
         = Vector3.z (_latLonToPoint lat lon radius))
  /\ _latLonToPoint 0 0 1 = Vector3.mk 1 0 0
  /\ flyTo_targetPos 0 0 1 = Vector3.mk (- 1) 0 0.
Proof.
  split; [| split].
  - intros lat lon radius. unfold flyTo_targetPos, _latLonToPoint; simpl.
    repeat split; ring.
  - unfold _latLonToPoint.
    rewrite phi_equator, theta_greenwich, sin_PI2, cos_PI2, cos_PI, sin_PI.
    f_equal; lra.
  - unfold flyTo_targetPos.
    rewrite phi_equator, theta_greenwich, sin_PI2, cos_PI2, cos_PI, sin_PI.
    f_equal; lra.
Qed.

(** * Further properties *)

Local Open Scope Z_scope.

(** ** Colour coding, for every integer identifier *)

Lemma testbit_high b k n : 0 <= b < 2 ^ k -> k <= n -> Z.testbit b n = false.
Proof.
  intros Hb Hn.
  destruct (Z.le_gt_cases 0 k) as [Hk | Hk].
  - rewrite <- (Z.mod_small b (2 ^ k)) by lia.
    apply Z.mod_pow2_bits_high. lia.
  - rewrite Z.pow_neg_r in Hb by lia. lia.
Qed.

Lemma land_mask_bound a b k : 0 <= b < 2 ^ k -> 0 <= Z.land a b < 2 ^ k.
Proof.
  intros Hb.
  destruct (Z.le_gt_cases 0 k) as [Hk | Hk];
    [| rewrite Z.pow_neg_r in Hb by lia; lia].
  replace (Z.land a b) with (Z.land (a mod 2 ^ k) b).
  - apply land_lt_pow2; [apply Z.mod_pos_bound; lia | assumption].
  - apply Z.bits_inj'. intros n Hn. rewrite !Z.land_spec.
    destruct (Z.lt_ge_cases n k).
    + rewrite Z.mod_pow2_bits_low by lia. reflexivity.
    + rewrite (testbit_high b k n) by lia. now rewrite !andb_false_r.
Qed.

Lemma lor_shiftl_add a b k :
  0 <= k -> 0 <= b < 2 ^ k -> Z.lor (Z.shiftl a k) b = a * 2 ^ k + b.
Proof.
  intros Hk Hb. rewrite <- Z.shiftl_mul_pow2 by lia.
  symmetry. apply Z.add_nocarry_lor.
  apply Z.bits_inj'. intros n Hn. rewrite Z.land_spec, Z.bits_0.
  destruct (Z.lt_ge_cases n k).
  - rewrite Z.shiftl_spec_low by lia. reflexivity.
  - rewrite (testbit_high b k n) by lia. apply andb_false_r.
Qed.

(** The channels of any integer, read off its 32-bit value. *)
Lemma idToColor_channels_divmod id :
  _idToColor_channels id =
    mkColor ((JS.ToInt32 id / 2 ^ 16) mod 2 ^ 8)
            ((JS.ToInt32 id / 2 ^ 8) mod 2 ^ 8)
            (JS.ToInt32 id mod 2 ^ 8).
Proof.
  unfold _idToColor_channels, JS.shr, JS.and, JS.shiftCount.
  set (t := JS.ToInt32 id).
  rewrite (ToInt32_small 16711680) by lia.
  rewrite (ToInt32_small 65280) by lia.
  rewrite (ToInt32_small 255) by lia.
  assert (Hr : 0 <= Z.land t 16711680 < 2 ^ 24) by (apply land_mask_bound; lia).
  assert (Hg : 0 <= Z.land t 65280 < 2 ^ 16) by (apply land_mask_bound; lia).
  rewrite (ToInt32_small (Z.land t 16711680)), (ToInt32_small (Z.land t 65280)) by lia.
  change (16 mod 32) with 16. change (8 mod 32) with 8.
  rewrite !Z.shiftr_land.
  change (Z.shiftr 16711680 16) with (Z.ones 8).
  change (Z.shiftr 65280 8) with (Z.ones 8).
  change 255 with (Z.ones 8).
  rewrite !Z.land_ones, !Z.shiftr_div_pow2 by lia.
  reflexivity.
Qed.

(** Three bytes are packed by weighting them with 2^16, 2^8 and 1. *)
Lemma colorToId_weighted r g b :
  0 <= r < 256 -> 0 <= g < 256 -> 0 <= b < 256 ->
  _colorToId r g b = r * 2 ^ 16 + g * 2 ^ 8 + b.
Proof.
  intros Hr Hg Hb.
  destruct (colorToId_bytes r g b Hr Hg Hb) as [-> _].
  assert (E : Z.shiftl r 16 = Z.shiftl (Z.shiftl r 8) 8)
    by (rewrite Z.shiftl_shiftl by lia; reflexivity).
  rewrite E, <- Z.shiftl_lor.
  rewrite (lor_shiftl_add r g 8) by lia.
  rewrite (lor_shiftl_add (r * 2 ^ 8 + g) b 8) by lia.
  change (2 ^ 16) with (2 ^ 8 * 2 ^ 8). ring.
Qed.

Lemma ToInt32_mod24 id : JS.ToInt32 id mod 2 ^ 24 = id mod 2 ^ 24.
Proof.
  unfold JS.ToInt32. cbv zeta.
  destruct (2 ^ 31 <=? id mod 2 ^ 32); Z.div_mod_to_equations; lia.
Qed.

(** X1. Whatever integer is passed, the three channels computed by
    [_idToColor] are bytes: the colour string is a well-formed CSS colour. *)
Theorem idToColor_channels_are_bytes (id : Z) :
  let c := _idToColor_channels id in
  0 <= red c < 256 /\ 0 <= green c < 256 /\ 0 <= blue c < 256.
Proof.
  rewrite idToColor_channels_divmod. cbn [red green blue].
  repeat split; Z.div_mod_to_equations; lia.
Qed.

(** X2. For every integer identifier, decoding its colour gives the
    identifier modulo 2^24: only the low 24 bits survive, so identifiers
    that differ by a multiple of 2^24 share one colour. *)
Theorem colorToId_idToColor_mod (id : Z) :
  let c := _idToColor_channels id in
  _colorToId (red c) (green c) (blue c) = id mod 2 ^ 24.
Proof.
  cbv zeta. rewrite idToColor_channels_divmod. cbn [red green blue].
  rewrite colorToId_weighted by (Z.div_mod_to_equations; lia).
  rewrite <- ToInt32_mod24.
  Z.div_mod_to_equations; lia.
Qed.

(** X3. Encoding a decoded colour gives the colour back: for three bytes
    r, g, b the channels of [_colorToId r g b] are r, g and b again, so
    distinct colours decode to distinct identifiers. *)
Theorem idToColor_colorToId (r g b : Z) :
  0 <= r < 256 -> 0 <= g < 256 -> 0 <= b < 256 ->
  _idToColor_channels (_colorToId r g b) = mkColor r g b.
Proof.
  intros Hr Hg Hb.
  rewrite idToColor_channels_divmod.
  rewrite (colorToId_weighted r g b) by assumption.
  rewrite ToInt32_small by lia.
  f_equal; Z.div_mod_to_equations; lia.
Qed.

Lemma idToColor_colorToId_witness :
  0 <= 18 < 256 /\ 0 <= 52 < 256 /\ 0 <= 86 < 256
  /\ _idToColor_channels (_colorToId 18 52 86) = mkColor 18 52 86.
Proof.
  split; [lia |]. split; [lia |]. split; [lia |].
  apply (idToColor_colorToId 18 52 86); lia.
Defined.

(** ** Picking: what can and what cannot be returned *)

Lemma getImageData_bytes canvas x y :
  byteCanvas canvas ->
  let p := getImageData canvas x y in
  isByte (px_r p) /\ isByte (px_g p) /\ isByte (px_b p).
Proof.
  intros Hbytes. unfold getImageData.
  destruct (_ && _).
  - destruct (Hbytes x y) as (Hr & Hg & Hb & _). auto.
  - unfold isByte; simpl. lia.
Qed.

(** X4. On a raster whose channels are bytes, and with the index built by
    [load], every country that picking returns has an id between 1 and
    2^24 - 1. A country whose id is 0 (the first record when it declares
    none), negative, or 2^24 and above is never returned. *)
Theorem getCountryAtUV_id_range
  (this : Renderer) (state : Countries) (uv : Vector2.t) (country : Country.t) :
  (forall canvas, lookupCanvas this = Some canvas -> byteCanvas canvas) ->
  byId state = buildById (data state) ->
  getCountryAtUV this state uv = Some country ->
  1 <= Country.id country < 2 ^ 24.
Proof.
  intros Hbytes Hindex. unfold getCountryAtUV.
  destruct (lookupCanvas this) as [canvas |]; [| discriminate].
  specialize (Hbytes canvas eq_refl).
  set (pixel := getImageData canvas _ _).
  destruct (getImageData_bytes canvas
              (Qfloor (Vector2.x uv * inject_Z (width canvas)))
              (Qfloor ((1 - Vector2.y uv) * inject_Z (height canvas))) Hbytes)
    as (Hr & Hg & Hb).
  fold pixel in Hr, Hg, Hb. unfold isByte in *.
  destruct (isSentinel pixel) eqn:Hs; [discriminate |].
  rewrite Hindex, buildById_lookup. intros Hlast.
  apply lastWithId_Some in Hlast as [_ ->].
  rewrite colorToId_weighted by assumption.
  assert (Hne : ~ (px_r pixel = 0 /\ px_g pixel = 0 /\ px_b pixel = 0)).
  { intros H. apply isSentinel_true in H. congruence. }
  lia.
Qed.

Lemma getCountryAtUV_id_range_witness :
  let features := [Feature.mk (Some 7) (Some (Some "Testland"%string)) (Polygon [])] in
  let state := (load blankFill (Some features) newRenderer initialCountries).2 in
  let canvas := mkCanvas 4 4 (fun x _ => if x <? 2 then mkPixel 0 0 7 255 else opaqueBlack) in
  let this := mkRenderer (Some canvas) (data state) in
  let uv := Vector2.mk (1 # 4) (1 # 2) in
  exists country,
    getCountryAtUV this state uv = Some country
    /\ 1 <= Country.id country < 2 ^ 24.
Proof.
  intros features state canvas this uv.
  eexists. split; [reflexivity |].
  apply (getCountryAtUV_id_range this state uv).
  - intros c Hc. injection Hc as <-. intros x y. unfold isByte. simpl.
    destruct (x <? 2); simpl; lia.
  - reflexivity.
  - reflexivity.
Defined.






(** ** Bounds against the vertices *)

Lemma Qmin_cases x y : Qmin x y = x \/ Qmin x y = y.
Proof.
  unfold Qmin, GenericMinMax.gmin. destruct (x ?= y)%Q; auto.
Qed.

Lemma Qmax_cases x y : Qmax x y = x \/ Qmax x y = y.
Proof.
  unfold Qmax, GenericMinMax.gmax. destruct (x ?= y)%Q; auto.
Qed.

Lemma running_min_cases l : forall a, fold_left Qmin l a = a \/ In (fold_left Qmin l a) l.
Proof.
  induction l as [| x l IH]; intros a; simpl; [now left |].
  destruct (IH (Qmin a x)) as [E | Hin]; [| now right; right].
  rewrite E. destruct (Qmin_cases a x) as [-> | ->]; [now left | now right; left].
Qed.

Lemma running_max_cases l : forall a, fold_left Qmax l a = a \/ In (fold_left Qmax l a) l.
Proof.
  induction l as [| x l IH]; intros a; simpl; [now left |].
  destruct (IH (Qmax a x)) as [E | Hin]; [| now right; right].
  rewrite E. destruct (Qmax_cases a x) as [-> | ->]; [now left | now right; left].
Qed.

(** A running minimum started at or above every element is attained. *)
Lemma running_min_attained l a :
  l <> [] -> (forall x, In x l -> (x <= a)%Q) ->
  exists x, In x l /\ (fold_left Qmin l a == x)%Q.
Proof.
  intros Hne Hle. destruct (running_min_cases l a) as [E | Hin].
  - destruct l as [| x l]; [congruence |]. exists x. split; [now left |].
    apply Qle_antisym.
    + apply running_min_le_elem. now left.
    + rewrite E. apply Hle. now left.
  - eexists. split; [exact Hin | reflexivity].
Qed.

Lemma running_max_attained l a :
  l <> [] -> (forall x, In x l -> (a <= x)%Q) ->
  exists x, In x l /\ (fold_left Qmax l a == x)%Q.
Proof.
  intros Hne Hle. destruct (running_max_cases l a) as [E | Hin].
  - destruct l as [| x l]; [congruence |]. exists x. split; [now left |].
    apply Qle_antisym.
    + rewrite E. apply Hle. now left.
    + apply running_max_ge_elem. now left.
  - eexists. split; [exact Hin | reflexivity].
Qed.

(** X6. Every vertex of a geometry lies inside its bounds. *)
Theorem calculateBounds_contains_vertices (geometry : Geometry) (v : Position) :
  In v (geometryVertices geometry) ->
  let b := _calculateBounds geometry in
  (minLat b <= p_lat v <= maxLat b)%Q /\ (minLon b <= p_lon v <= maxLon b)%Q.
Proof.
  intros Hin b. unfold b. rewrite calculateBounds_running.
  unfold runningBounds; cbn [minLat maxLat minLon maxLon].
  repeat split.
  - apply running_min_le_elem. now apply in_map.
  - apply running_max_ge_elem. now apply in_map.
  - apply running_min_le_elem. now apply in_map.
  - apply running_max_ge_elem. now apply in_map.
Qed.

Lemma calculateBounds_contains_vertices_witness :
  let square := [mkPosition 0 0; mkPosition 0 10; mkPosition 10 10; mkPosition 10 0] in
  let v := mkPosition 10 10 in
  In v (geometryVertices (Polygon [square]))
  /\ (minLat (_calculateBounds (Polygon [square])) <= p_lat v
      <= maxLat (_calculateBounds (Polygon [square])))%Q
  /\ (minLon (_calculateBounds (Polygon [square])) <= p_lon v
      <= maxLon (_calculateBounds (Polygon [square])))%Q.
Proof.
  intros square v.
  assert (Hin : In v (geometryVertices (Polygon [square]))) by (simpl; tauto).
  split; [exact Hin |].
  exact (calculateBounds_contains_vertices (Polygon [square]) v Hin).
Defined.

(** X7. When every vertex is geographic and there is at least one, each
    of the four bounds is the coordinate of some vertex: together with the
    containment above, the bounds are the exact minimum and maximum. *)
Theorem calculateBounds_attained (geometry : Geometry) :
  geometryVertices geometry <> [] ->
  (forall v, In v (geometryVertices geometry) -> geographic v) ->
  let b := _calculateBounds geometry in
  (exists v, In v (geometryVertices geometry) /\ (minLat b == p_lat v)%Q)
  /\ (exists v, In v (geometryVertices geometry) /\ (maxLat b == p_lat v)%Q)
  /\ (exists v, In v (geometryVertices geometry) /\ (minLon b == p_lon v)%Q)
  /\ (exists v, In v (geometryVertices geometry) /\ (maxLon b == p_lon v)%Q).
Proof.
  intros Hne Hgeo b. unfold b. rewrite calculateBounds_running.
  set (vs := geometryVertices geometry) in *.
  unfold runningBounds; cbn [minLat maxLat minLon maxLon].
  assert (Hmap : forall f : Position -> Q, map f vs <> [])
    by (intros f; destruct vs; [congruence | discriminate]).
  assert (Hback : forall (f : Position -> Q) x,
             In x (map f vs) -> exists v, In v vs /\ x = f v).
  { intros f x Hx. apply in_map_iff in Hx as (v & <- & Hv). eauto. }
  repeat split.
  - destruct (running_min_attained (map p_lat vs) 90 (Hmap _)) as (x & Hx & E).
    + intros x Hx. destruct (Hback _ _ Hx) as (v & Hv & ->). apply (Hgeo v Hv).
    + destruct (Hback _ _ Hx) as (v & Hv & ->). eauto.
  - destruct (running_max_attained (map p_lat vs) (-90) (Hmap _)) as (x & Hx & E).
    + intros x Hx. destruct (Hback _ _ Hx) as (v & Hv & ->). apply (Hgeo v Hv).
    + destruct (Hback _ _ Hx) as (v & Hv & ->). eauto.
  - destruct (running_min_attained (map p_lon vs) 180 (Hmap _)) as (x & Hx & E).
    + intros x Hx. destruct (Hback _ _ Hx) as (v & Hv & ->). apply (Hgeo v Hv).
    + destruct (Hback _ _ Hx) as (v & Hv & ->). eauto.
  - destruct (running_max_attained (map p_lon vs) (-180) (Hmap _)) as (x & Hx & E).
    + intros x Hx. destruct (Hback _ _ Hx) as (v & Hv & ->). apply (Hgeo v Hv).
    + destruct (Hback _ _ Hx) as (v & Hv & ->). eauto.
Qed.

Lemma calculateBounds_attained_witness :
  let ring := [mkPosition 0 0; mkPosition 0 10; mkPosition 10 10; mkPosition 10 0] in
  let g := Polygon [ring] in
  geometryVertices g <> []
  /\ (forall v, In v (geometryVertices g) -> geographic v)
  /\ (exists v, In v (geometryVertices g) /\ (minLat (_calculateBounds g) == p_lat v)%Q)
  /\ (exists v, In v (geometryVertices g) /\ (maxLat (_calculateBounds g) == p_lat v)%Q)
  /\ (exists v, In v (geometryVertices g) /\ (minLon (_calculateBounds g) == p_lon v)%Q)
  /\ (exists v, In v (geometryVertices g) /\ (maxLon (_calculateBounds g) == p_lon v)%Q).
Proof.
  intros ring g.
  assert (Hne : geometryVertices g <> []) by discriminate.
  assert (Hgeo : forall v, In v (geometryVertices g) -> geographic v).
  { intros v Hv. simpl in Hv.
    destruct Hv as [<- | [<- | [<- | [<- | []]]]];
      unfold geographic; simpl; repeat split; discriminate. }
  split; [exact Hne |]. split; [exact Hgeo |].
  exact (calculateBounds_attained g Hne Hgeo).
Defined.

(** ** The lookup maps against the loaded data *)

Lemma lastWithId_in_ids i cs :
  is_Some (lastWithId i cs) <-> i ∈ Country.id <$> cs.
Proof.
  split.
  - intros [c Hc]. apply lastWithId_Some in Hc as [Hin <-].
    now apply list_elem_of_fmap_2.
  - intros Hin. apply list_elem_of_fmap in Hin as (c & -> & Hc).
    destruct (lastWithId_is_Some (Country.id c) cs c Hc eq_refl) as [c' Hc'].
    now exists c'.
Qed.

(** X9. The keys of [byId] are exactly the ids of the countries it was
    built from: an id resolves if and only if some country carries it, and
    the country found carries the id asked for. *)
Theorem buildById_keys (countryData : list Country.t) (i : Z) :
  (is_Some (buildById countryData !! i) <-> i ∈ Country.id <$> countryData)
  /\ (forall c, buildById countryData !! i = Some c ->
                c ∈ countryData /\ Country.id c = i).
Proof.
  rewrite buildById_lookup. split.
  - apply lastWithId_in_ids.
  - intros c. apply lastWithId_Some.
Qed.

Lemma NoDup_ids_inj (cs : list Country.t) c c' :
  NoDup (Country.id <$> cs) -> c ∈ cs -> c' ∈ cs ->
  Country.id c = Country.id c' -> c = c'.
Proof.
  induction cs as [| x cs IH]; intros Hnd Hc Hc' Hid.
  - now apply not_elem_of_nil in Hc.
  - rewrite fmap_cons in Hnd. apply NoDup_cons in Hnd as [Hx Hnd].
    apply elem_of_cons in Hc as [-> | Hc]; apply elem_of_cons in Hc' as [-> | Hc'].
    + reflexivity.
    + exfalso. apply Hx. rewrite Hid. now apply list_elem_of_fmap_2.
    + exfalso. apply Hx. rewrite <- Hid. now apply list_elem_of_fmap_2.
    + now apply IH.
Qed.

Lemma buildById_NoDup_lookup (cs : list Country.t) c :
  NoDup (Country.id <$> cs) -> c ∈ cs -> buildById cs !! Country.id c = Some c.
Proof.
  intros Hnd Hc. rewrite buildById_lookup.
  destruct (lastWithId_is_Some (Country.id c) cs c Hc eq_refl) as [c' Hc'].
  rewrite Hc'. f_equal.
  apply lastWithId_Some in Hc' as [Hin Hid].
  now apply (NoDup_ids_inj cs).
Qed.

(** X10. When the ids of the loaded countries are pairwise distinct, every
    country is found in [byId] under its own id: nothing is shadowed. *)
Theorem buildById_exact (countryData : list Country.t) (country : Country.t) :
  NoDup (Country.id <$> countryData) ->
  country ∈ countryData ->
  buildById countryData !! Country.id country = Some country.
Proof.
  apply buildById_NoDup_lookup.
Qed.

Lemma buildById_exact_witness :
  let features := [Feature.mk (Some 4) (Some (Some "Afghanistan"%string)) (Polygon []);
                   Feature.mk (Some 8) (Some (Some "Albania"%string)) (Polygon [])] in
  let countryData := processFeatures features in
  let country := processFeature (Feature.mk (Some 8) (Some (Some "Albania"%string)) (Polygon [])) 1 in
  NoDup (Country.id <$> countryData)
  /\ country ∈ countryData
  /\ buildById countryData !! Country.id country = Some country.
Proof.
  intros features countryData country.
  assert (Hnd : NoDup (Country.id <$> countryData)).
  { apply (NoDup_cons_2 4 [8]); [| apply NoDup_singleton].
    intros H. apply list_elem_of_singleton in H. discriminate. }
  assert (Hin : country ∈ countryData) by (right; left).
  split; [exact Hnd |]. split; [exact Hin |].
  exact (buildById_exact countryData country Hnd Hin).
Defined.

Lemma processFeatures_undeclared_ids features :
  (forall feature, feature ∈ features -> Feature.id feature = None) ->
  Country.id <$> processFeatures features = Z.of_nat <$> seq 0 (length features).
Proof.
  intros Hnone. apply list_eq. intros i.
  rewrite !list_lookup_fmap, processFeatures_lookup.
  destruct (features !! i) as [f |] eqn:Ef; simpl.
  - rewrite lookup_seq_lt by (now apply lookup_lt_Some in Ef). simpl.
    unfold processFeature; cbn [Country.id].
    rewrite (Hnone f) by (eapply list_elem_of_lookup_2; eassumption). reflexivity.
  - rewrite lookup_seq_ge by (now apply lookup_ge_None in Ef). reflexivity.
Qed.

(** X11. When no record of the payload declares an id, the ids are the
    positions 0, 1, 2, ... and, after [load], [byId] at a position is the
    entry of [data] at that position: every country is reachable under the
    index it was given. *)
Theorem load_undeclared_ids_are_positions
  (fillPath : string -> list (Q * Q) -> Canvas -> Canvas)
  (features : list Feature.t) (this : Renderer) (state : Countries) :
  (forall feature, feature ∈ features -> Feature.id feature = None) ->
  let state' := (load fillPath (Some features) this state).2 in
  forall i : nat, byId state' !! Z.of_nat i = data state' !! i.
Proof.
  intros Hnone state' i.
  assert (Hd : data state' = processFeatures features) by reflexivity.
  assert (Hb : byId state' = buildById (processFeatures features)) by reflexivity.
  rewrite Hd, Hb.
  pose proof (processFeatures_undeclared_ids features Hnone) as Hids.
  assert (Hnd : NoDup (Country.id <$> processFeatures features)).
  { rewrite Hids. apply NoDup_fmap_2; [intros a b; apply Nat2Z.inj | apply NoDup_seq]. }
  destruct (processFeatures features !! i) as [c |] eqn:Ec.
  - assert (Hid : Country.id c = Z.of_nat i).
    { assert (H : (Country.id <$> processFeatures features) !! i = Some (Country.id c))
        by (now rewrite list_lookup_fmap, Ec).
      rewrite Hids, list_lookup_fmap in H.
      destruct (seq 0 (length features) !! i) as [j |] eqn:Ej; [| discriminate].
      apply lookup_seq in Ej as [-> _]. simpl in H. congruence. }
    rewrite <- Hid. apply buildById_NoDup_lookup; [exact Hnd |].
    eapply list_elem_of_lookup_2; eassumption.
  - rewrite buildById_lookup.
    destruct (lastWithId (Z.of_nat i) (processFeatures features)) as [c |] eqn:El;
      [| reflexivity].
    exfalso.
    assert (Hin : Z.of_nat i ∈ Country.id <$> processFeatures features)
      by (apply lastWithId_in_ids; eauto).
    rewrite Hids in Hin. apply list_elem_of_fmap in Hin as (j & Hj & Hin).
    apply Nat2Z.inj in Hj. subst j.
    apply elem_of_seq in Hin. apply lookup_ge_None in Ec.
    rewrite processFeatures_length in Ec. lia.
Qed.

Lemma load_undeclared_ids_are_positions_witness :
  let features := [Feature.mk None (Some (Some "Alpha"%string)) (Polygon []);
                   Feature.mk None None (Polygon [])] in
  let state' := (load blankFill (Some features) newRenderer initialCountries).2 in
  (forall feature, feature ∈ features -> Feature.id feature = None)
  /\ forall i : nat, byId state' !! Z.of_nat i = data state' !! i.
Proof.
  intros features state'.
  assert (Hnone : forall feature, feature ∈ features -> Feature.id feature = None).
  { intros f Hf. apply elem_of_cons in Hf as [-> | Hf]; [reflexivity |].
    apply list_elem_of_singleton in Hf as ->. reflexivity. }
  split; [exact Hnone |].
  exact (load_undeclared_ids_are_positions blankFill features newRenderer
           initialCountries Hnone).
Defined.

Lemma lastWithName_cons key c cs :
  lastWithName key (c :: cs) =
    match lastWithName key cs with
    | Some c' => Some c'
    | None => if decide (toLowerCase (Country.name c) = key) then Some c else None
    end.
Proof.
  unfold lastWithName. rewrite filter_cons.
  destruct (decide (toLowerCase (Country.name c) = key)) as [Heq | Hne].
  - apply last_cons.
  - now destruct (last _).
Qed.

Lemma fold_insert_name_lookup cs :
  forall (m : gmap string Country.t) key,
    fold_left (fun m country => <[toLowerCase (Country.name country) := country]> m) cs m
      !! key =
      match lastWithName key cs with
      | Some c => Some c
      | None => m !! key
      end.
Proof.
  induction cs as [| c cs IH]; intros m key; simpl fold_left.
  - reflexivity.
  - rewrite IH, lastWithName_cons.
    destruct (lastWithName key cs) as [c' |]; [reflexivity |].
    destruct (decide (toLowerCase (Country.name c) = key)) as [<- | Hne].
    + apply lookup_insert_eq.
    + now apply lookup_insert_ne.
Qed.

Lemma lowerChar_idempotent c : lowerChar (lowerChar c) = lowerChar c.
Proof.
  unfold lowerChar.
  destruct ((65 <=? nat_of_ascii c)%nat && (nat_of_ascii c <=? 90)%nat) eqn:E.
  - apply andb_true_iff in E as [H1 H2].
    apply Nat.leb_le in H1, H2.
    rewrite nat_ascii_embedding by lia.
    destruct (Nat.leb_spec (nat_of_ascii c + 32) 90); [lia |].
    now rewrite andb_false_r.
  - now rewrite E.
Qed.

Lemma toLowerCase_idempotent s : toLowerCase (toLowerCase s) = toLowerCase s.
Proof.
  induction s as [| c s IH]; simpl; [reflexivity |].
  now rewrite lowerChar_idempotent, IH.
Qed.

(** X12. [byName] is keyed by lower-cased names: looking up the
    lower-cased name of any loaded country finds the last loaded country
    with that name up to letter case, and every key of the map is already
    in lower case. *)
Theorem buildByName_lookup (countryData : list Country.t) :
  (forall country,
      country ∈ countryData ->
      exists found,
        buildByName countryData !! toLowerCase (Country.name country) = Some found
        /\ found ∈ countryData
        /\ toLowerCase (Country.name found) = toLowerCase (Country.name country))
  /\ (forall key, buildByName countryData !! key
                  = lastWithName key countryData)
  /\ (forall key found, buildByName countryData !! key = Some found ->
                        toLowerCase key = key).
Proof.
  assert (Hlookup : forall key, buildByName countryData !! key
                                = lastWithName key countryData).
  { intros key. unfold buildByName. rewrite fold_insert_name_lookup, lookup_empty.
    now destruct (lastWithName key countryData). }
  assert (Hsome : forall key found, lastWithName key countryData = Some found ->
                    found ∈ countryData /\ toLowerCase (Country.name found) = key).
  { intros key found H. unfold lastWithName in H.
    apply last_Some_elem_of, list_elem_of_filter in H. tauto. }
  split; [| split; [exact Hlookup |]].
  - intros country Hin. rewrite Hlookup.
    destruct (lastWithName (toLowerCase (Country.name country)) countryData)
      as [found |] eqn:E.
    + exists found. split; [reflexivity |]. now apply Hsome.
    + exfalso. unfold lastWithName in E. apply last_None in E.
      assert (H : country ∈ filter
                    (fun c => toLowerCase (Country.name c)
                              = toLowerCase (Country.name country)) countryData)
        by (apply list_elem_of_filter; tauto).
      rewrite E in H. now apply not_elem_of_nil in H.
  - intros key found H. rewrite Hlookup in H.
    apply Hsome in H as [_ <-]. apply toLowerCase_idempotent.
Qed.

(** ** The lookup raster and the hole rings *)

Section RasterHoles.

Variable fillPath : string -> list (Q * Q) -> Canvas -> Canvas.

Lemma drawPolygon_take1 style size coords c :
  drawPolygon fillPath style size (take 1 coords) c
  = drawPolygon fillPath style size coords c.
Proof. destruct coords; reflexivity. Qed.

Lemma drawGeometry_outerOnly style geometry size c :
  _drawGeometry fillPath style (outerOnly geometry) size c
  = _drawGeometry fillPath style geometry size c.
Proof.
  destruct geometry as [rings | polygons | t co]; simpl.
  - apply drawPolygon_take1.
  - revert c. induction polygons as [| p ps IH]; intros c; simpl.
    + reflexivity.
    + rewrite drawPolygon_take1. apply IH.
  - reflexivity.
Qed.

End RasterHoles.

(** X13. The lookup raster does not depend on hole rings: stripping every
    polygon of all rings but its first gives the same canvas, whatever the
    rasteriser. Enclaves are painted in the colour of the enclosing
    country unless a later country paints over them. *)
Theorem createLookupTexture_ignores_holes
  (fillPath : string -> list (Q * Q) -> Canvas -> Canvas) (this : Renderer) :
  lookupCanvas (_createLookupTexture fillPath
                  (mkRenderer (lookupCanvas this) (withoutHoles <$> countryData this)))
  = lookupCanvas (_createLookupTexture fillPath this).
Proof.
  unfold _createLookupTexture; cbn [lookupCanvas countryData]. f_equal.
  generalize (blackCanvas 2048).
  induction (countryData this) as [| country cs IH]; intros c.
  - reflexivity.
  - rewrite fmap_cons. cbn [fold_left]. rewrite IH. f_equal.
    unfold withoutHoles; cbn [Country.id Country.geometry].
    apply drawGeometry_outerOnly.
Qed.

(** ** Identifiers painted in the background colour *)

(** X14. An identifier is painted black, the colour that means no
    country, exactly when it is a multiple of 2^24. This includes 0, the id
    given to the first record of a payload that declares none. *)
Theorem idToColor_sentinel (id : Z) :
  (id mod 2 ^ 24 = 0 <-> _idToColor_channels id = mkColor 0 0 0)
  /\ (id mod 2 ^ 24 = 0 -> _idToColor id = "rgb(0,0,0)"%string).
Proof.
  assert (H : id mod 2 ^ 24 = 0 <-> _idToColor_channels id = mkColor 0 0 0).
  { rewrite idToColor_channels_divmod, <- ToInt32_mod24. split.
    - intros Hz. f_equal; Z.div_mod_to_equations; lia.
    - intros Hc. injection Hc as Hr Hg Hb. Z.div_mod_to_equations; lia. }
  split; [exact H |].
  intros Hz. apply H in Hz. unfold _idToColor. rewrite Hz. reflexivity.
Qed.

(** ** Points on the sphere *)

Local Open Scope R_scope.

Lemma spherical_norm r s c s' c' :
  s * s + c * c = 1 -> s' * s' + c' * c' = 1 ->
  sqrt ((r * s * c') * (r * s * c') + (r * c) * (r * c) + (r * s * s') * (r * s * s'))
  = Rabs r.
Proof.
  intros H H'.
  replace ((r * s * c') * (r * s * c') + (r * c) * (r * c) + (r * s * s') * (r * s * s'))
    with (r * r * (s * s * (s' * s' + c' * c') + c * c)) by ring.
  rewrite H', Rmult_1_r, H, Rmult_1_r. apply sqrt_Rsqr_abs.
Qed.

Lemma sin_cos_unit a : sin a * sin a + cos a * cos a = 1.
Proof. pose proof (sin2_cos2 a) as H. unfold Rsqr in H. exact H. Qed.

Lemma latLonToPoint_on_sphere lat lon radius :
  Vector3.length (_latLonToPoint lat lon radius) = Rabs radius.
Proof.
  unfold Vector3.length, _latLonToPoint; cbn [Vector3.x Vector3.y Vector3.z].
  set (phi := (90 - lat) * (PI / 180)). set (theta := (lon + 180) * (PI / 180)).
  rewrite <- (spherical_norm radius (sin phi) (cos phi) (sin theta) (cos theta))
    by apply sin_cos_unit.
  f_equal; ring.
Qed.

Lemma flyTo_targetPos_on_sphere lat lon distance :
  Vector3.length (flyTo_targetPos lat lon distance) = Rabs distance.
Proof.
  unfold Vector3.length, flyTo_targetPos; cbn [Vector3.x Vector3.y Vector3.z].
  set (phi := (90 - lat) * (PI / 180)). set (theta := (lon + 180) * (PI / 180)).
  rewrite <- (spherical_norm distance (sin phi) (cos phi) (sin theta) (cos theta))
    by apply sin_cos_unit.
  f_equal; ring.
Qed.

(** X15. The point that [_latLonToPoint] computes lies on the sphere of
    the given radius around the origin, for every latitude and longitude. *)
Theorem latLonToPoint_radius (lat lon radius : R) :
  0 <= radius ->
  Vector3.length (_latLonToPoint lat lon radius) = radius.
Proof.
  intros Hr. rewrite latLonToPoint_on_sphere. now apply Rabs_pos_eq.
Qed.

Lemma latLonToPoint_radius_witness :
  0 <= 2 /\ Vector3.length (_latLonToPoint 45 30 2) = 2.
Proof.
  split; [lra | apply (latLonToPoint_radius 45 30 2); lra].
Defined.

(** X16. The target of [flyTo] is as far from the centre of the globe as
    the camera was when the flight began: flying changes the direction of
    view, not the zoom. *)
Theorem flyTo_keeps_distance (lat lon distance : R) :
  0 <= distance ->
  Vector3.length (flyTo_targetPos lat lon distance) = distance.
Proof.
  intros Hd. rewrite flyTo_targetPos_on_sphere. now apply Rabs_pos_eq.
Qed.

Lemma flyTo_keeps_distance_witness :
  0 <= 5 / 2 /\ Vector3.length (flyTo_targetPos 20 0 (5 / 2)) = 5 / 2.
Proof.
  split; [lra | apply (flyTo_keeps_distance 20 0 (5 / 2)); lra].
Defined.

(** ** Border lines *)

Lemma processRing_spec ring :
  processRing ring = if (1 <? length ring)%nat then [ringPoints ring] else [].
Proof.
  unfold processRing, ringPoints. now rewrite length_map.
Qed.

Lemma processPolygon_spec coords :
  processPolygon coords
  = ringPoints <$> filter (fun ring => (1 < length ring)%nat) coords.
Proof.
  unfold processPolygon. induction coords as [| ring rest IH]; [reflexivity |].
  cbn [flat_map]. rewrite IH, processRing_spec, filter_cons.
  destruct (Nat.ltb_spec 1 (length ring)) as [Hlt | Hge].
  - rewrite decide_True by assumption. reflexivity.
  - rewrite decide_False by lia. reflexivity.
Qed.

(** X17. [_geometryToLines] makes one line for every ring that has at
    least two vertices, hole rings included, in the order of the rings; a
    line has one point per vertex of its ring. Rings with fewer than two
    vertices and geometries that are neither polygons nor multipolygons
    give no line. *)
Theorem geometryToLines_rings (geometry : Geometry) :
  _geometryToLines geometry
  = ringPoints <$> filter (fun ring => (1 < length ring)%nat) (allRings geometry).
Proof.
  destruct geometry as [rings | polygons | t c]; cbn [_geometryToLines allRings].
  - apply processPolygon_spec.
  - induction polygons as [| p ps IH]; [reflexivity |].
    cbn [flat_map concat]. rewrite IH, processPolygon_spec, filter_app, fmap_app.
    reflexivity.
  - reflexivity.
Qed.

(** X18. Every point of every border line lies 1.001 globe radii from the
    centre, just above the surface of the globe. *)
Theorem geometryToLines_above_surface (geometry : Geometry) (line : list Vector3.t)
  (point : Vector3.t) :
  line ∈ _geometryToLines geometry ->
  point ∈ line ->
  Vector3.length point = 1001 / 1000 * globe_radius.
Proof.
  intros Hline Hpoint.
  assert (Hring : exists ring, line = ringPoints ring).
  { destruct geometry as [rings | polygons | t c]; cbn [_geometryToLines] in Hline.
    - rewrite processPolygon_spec in Hline.
      apply list_elem_of_fmap in Hline as (ring & -> & _). eauto.
    - apply list_elem_of_In, in_flat_map in Hline as (p & _ & Hline).
      apply list_elem_of_In in Hline. rewrite processPolygon_spec in Hline.
      apply list_elem_of_fmap in Hline as (ring & -> & _). eauto.
    - now apply not_elem_of_nil in Hline. }
  destruct Hring as [ring ->].
  unfold ringPoints in Hpoint.
  apply list_elem_of_In, in_map_iff in Hpoint as (p & <- & _).
  rewrite latLonToPoint_on_sphere. unfold borderRadius, globe_radius.
  rewrite Rabs_pos_eq; lra.
Qed.

Lemma geometryToLines_above_surface_witness :
  let ring := [mkPosition 0 0; mkPosition 0 10; mkPosition 10 10] in
  let point := _latLonToPoint (Q2R 10) (Q2R 0) borderRadius in
  ringPoints ring ∈ _geometryToLines (Polygon [ring])
  /\ point ∈ ringPoints ring
  /\ Vector3.length point = 1001 / 1000 * globe_radius.
Proof.
  intros ring point.
  assert (Hline : ringPoints ring ∈ _geometryToLines (Polygon [ring])) by left.
  assert (Hpoint : point ∈ ringPoints ring) by (right; left).
  split; [exact Hline |]. split; [exact Hpoint |].
  exact (geometryToLines_above_surface (Polygon [ring]) (ringPoints ring) point
           Hline Hpoint).
Defined.

(** ** Unprojection *)



(** ** Texture coordinates of projected points *)

(** X22. The vertex of the globe mesh that sits at the point of
    [latLonToPoint lat lon] gets the texture coordinate
    (1/2 - lon/360, 1/2 + lat/180): v grows with the latitude, and u
    decreases as the longitude grows. *)
Theorem vertexUV_latLonToPoint (lat lon : R) :
  - 90 < lat < 90 ->
  - 180 <= lon < 180 ->
  vertexUV (latLonToPoint lat lon) = (1 / 2 - lon / 360, 1 / 2 + lat / 180).
Proof.
  intros Hlat Hlon. pose proof PI_RGT_0 as Hpi.
  unfold vertexUV, latLonToPoint, globe_radius. cbn [Vector3.x Vector3.y Vector3.z].
  set (phi := (90 - lat) * (PI / 180)). set (theta := (lon + 180) * (PI / 180)).
  assert (Hphi : 0 < phi < PI).
  { unfold phi. split.
    - apply Rmult_lt_0_compat; lra.
    - replace PI with (180 * (PI / 180)) at 2 by lra.
      apply Rmult_lt_compat_r; lra. }
  assert (Hs : 0 < sin phi) by (apply sin_gt_0; lra).
  set (t := PI - theta).
  assert (Ht : - PI < t <= PI).
  { unfold t, theta. split.
    - assert ((lon + 180) * (PI / 180) < 360 * (PI / 180))
        by (apply Rmult_lt_compat_r; lra). lra.
    - assert (0 * (PI / 180) <= (lon + 180) * (PI / 180))
        by (apply Rmult_le_compat_r; lra). lra. }
  replace (1 * sin phi * sin theta) with (sin phi * sin t)
    by (unfold t; rewrite sin_PI_x; ring).
  replace (- (1) * sin phi * cos theta) with (sin phi * cos t)
    by (unfold t; rewrite Rtrigo_facts.cos_pi_minus; ring).
  rewrite atan2_polar by assumption.
  replace (1 * cos phi / 1) with (cos phi) by field.
  rewrite acos_cos by lra.
  unfold t, theta, phi. f_equal; field; lra.
Qed.

Lemma vertexUV_latLonToPoint_witness :
  - 90 < 45 < 90 /\ - 180 <= 30 < 180
  /\ vertexUV (latLonToPoint 45 30) = (1 / 2 - 30 / 360, 1 / 2 + 45 / 180).
Proof.
  split; [lra |]. split; [lra |].
  apply (vertexUV_latLonToPoint 45 30); lra.
Defined.

(** ** The flight of the camera *)

(** X23. A flight of positive duration starts on the start position;
    it requests a further frame whenever less than the duration has
    elapsed; once the duration has elapsed the eased parameter is 1, the
    camera is put on [lerpVectors startPos targetPos 1], and no further
    frame is requested, so the animation ends. *)
Theorem animateFly_progress (startPos targetPos : Vector3.t) (duration : R) :
  0 < duration ->
  animateFly startPos targetPos duration 0 = (startPos, true)
  /\ (forall elapsed, elapsed < duration ->
                      snd (animateFly startPos targetPos duration elapsed) = true)
  /\ (forall elapsed, duration <= elapsed ->
                      animateFly startPos targetPos duration elapsed
                      = (lerpVectors startPos targetPos 1, false)).
Proof.
  intros Hd. unfold animateFly. split; [| split].
  - replace (0 / duration) with 0 by (field; lra).
    rewrite Rmin_left by lra.
    destruct (Rlt_dec 0 1) as [_ | Habs]; [| lra].
    f_equal. unfold lerpVectors. destruct startPos. cbn. f_equal; ring.
  - intros elapsed Hlt. cbn [snd].
    assert (elapsed / duration < 1).
    { apply Rmult_lt_reg_r with duration; [assumption |].
      unfold Rdiv. rewrite Rmult_assoc, Rinv_l by lra. lra. }
    rewrite Rmin_left by lra.
    destruct (Rlt_dec (elapsed / duration) 1); [reflexivity | lra].
  - intros elapsed Hge.
    assert (1 <= elapsed / duration).
    { apply Rmult_le_reg_r with duration; [assumption |].
      unfold Rdiv. rewrite Rmult_assoc, Rinv_l by lra. lra. }
    rewrite Rmin_right by assumption.
    destruct (Rlt_dec 1 1) as [Habs | _]; [lra |].
    replace (1 - (1 - 1) ^ 3) with 1 by ring. reflexivity.
Qed.

Lemma animateFly_progress_witness :
  let startPos := Vector3.mk 0 0 (5 / 2) in
  let targetPos := Vector3.mk 1 2 0 in
  0 < 1000
  /\ animateFly startPos targetPos 1000 0 = (startPos, true)
  /\ snd (animateFly startPos targetPos 1000 500) = true
  /\ animateFly startPos targetPos 1000 1200
     = (lerpVectors startPos targetPos 1, false).
Proof.
  intros startPos targetPos.
  assert (Hd : 0 < 1000) by lra.
  destruct (animateFly_progress startPos targetPos 1000 Hd) as (H0 & Hbefore & Hafter).
  split; [exact Hd |]. split; [exact H0 |].
  split; [apply Hbefore; lra | apply Hafter; lra].
Defined.

(** ** The state manager *)

Local Open Scope Z_scope.

Section StateProperties.

Context {P : Type}.
Implicit Types (obj state value : JsValue P) (keys : list string).

Lemma split_nonempty path : StateManager.split path <> [].
Proof.
  destruct path as [| c rest]; simpl; [discriminate |].
  destruct (Ascii.eqb c "."); [discriminate |].
  destruct (StateManager.split rest); discriminate.
Qed.

Lemma split_removelast_last path :
  StateManager.split path
  = removelast (StateManager.split path)
      ++ [default EmptyString (last (StateManager.split path))].
Proof.
  pose proof (split_nonempty path) as Hne.
  destruct (StateManager.split path) as [| k ks] using rev_ind; [congruence |].
  rewrite removelast_last, last_snoc. reflexivity.
Qed.


Lemma assign_then_walk obj keys lastKey value obj' :
  StateManager.assign obj keys lastKey value = Some obj' ->
  fold_left StateManager.property (keys ++ [lastKey]) (Some obj') = Some value.
Proof.
  revert obj obj'. induction keys as [| key rest IH]; intros obj obj' H;
    destruct obj as [p | fields]; simpl in H; try discriminate.
  - injection H as <-. simpl. apply lookup_insert_eq.
  - destruct (fields !! key) as [child |] eqn:Ec; [| discriminate].
    destruct (StateManager.assign child rest lastKey value) as [child' |] eqn:Ea;
      [| discriminate].
    injection H as <-. simpl. rewrite lookup_insert_eq. now apply (IH child).
Qed.




(** X24. Reading a path just written gives the value written: if
    [set(path, value)] goes through, [get(path)] then answers the value. *)
Theorem set_then_get state path value state' :
  StateManager.set state path value = Some state' ->
  StateManager.get state' path = Some value.
Proof.
  unfold StateManager.set, StateManager.get. intros H.
  rewrite (split_removelast_last path). now apply assign_then_walk in H.
Qed.



Lemma assign_child (fields child : gmap string (JsValue P)) key lastKey value :
  fields !! key = Some (Obj child) ->
  StateManager.assign (Obj fields) [key] lastKey value
  = Some (Obj (<[key := Obj (<[lastKey := value]> child)]> fields)).
Proof. intros H. simpl. now rewrite H. Qed.

(** X27. The [update] that [load] makes: whenever the state has an object
    under [countries], all four entries are set, and afterwards the four
    paths read back the published values while every other branch of the
    state is untouched. *)
Theorem update_publishes_countries
  (fields countries : gmap string (JsValue P)) (loaded data byId byName : JsValue P) :
  fields !! "countries"%string = Some (Obj countries) ->
  exists state',
    StateManager.update (Obj fields) (loadUpdates loaded data byId byName) = (state', true)
    /\ StateManager.get state' "countries.loaded" = Some loaded
    /\ StateManager.get state' "countries.data" = Some data
    /\ StateManager.get state' "countries.byId" = Some byId
    /\ StateManager.get state' "countries.byName" = Some byName
    /\ forall key, key <> "countries"%string ->
                   StateManager.property (Some state') key
                   = StateManager.property (Some (Obj fields)) key.
Proof.
  intros Hc.
  set (c1 := <["loaded"%string := loaded]> countries).
  set (c2 := <["data"%string := data]> c1).
  set (c3 := <["byId"%string := byId]> c2).
  set (c4 := <["byName"%string := byName]> c3).
  set (f1 := <["countries"%string := Obj c1]> fields).
  set (f2 := <["countries"%string := Obj c2]> f1).
  set (f3 := <["countries"%string := Obj c3]> f2).
  set (f4 := <["countries"%string := Obj c4]> f3).
  exists (Obj f4).
  assert (E1 : StateManager.set (Obj fields) "countries.loaded" loaded = Some (Obj f1))
    by (apply assign_child, Hc).
  assert (E2 : StateManager.set (Obj f1) "countries.data" data = Some (Obj f2))
    by (apply assign_child, lookup_insert_eq).
  assert (E3 : StateManager.set (Obj f2) "countries.byId" byId = Some (Obj f3))
    by (apply assign_child, lookup_insert_eq).
  assert (E4 : StateManager.set (Obj f3) "countries.byName" byName = Some (Obj f4))
    by (apply assign_child, lookup_insert_eq).
  split.
  { unfold loadUpdates. cbn [StateManager.update]. now rewrite E1, E2, E3, E4. }
  assert (Hf4 : f4 !! "countries"%string = Some (Obj c4)) by apply lookup_insert_eq.
  unfold StateManager.get.
  cbn [StateManager.split Ascii.eqb Bool.eqb fold_left StateManager.property].
  rewrite Hf4. cbn [StateManager.property]. unfold c4, c3, c2, c1.
  repeat split.
  - rewrite !lookup_insert_ne by discriminate. apply lookup_insert_eq.
  - rewrite !lookup_insert_ne by discriminate. apply lookup_insert_eq.
  - rewrite !lookup_insert_ne by discriminate. apply lookup_insert_eq.
  - apply lookup_insert_eq.
  - intros key Hkey. unfold f4, f3, f2, f1.
    now rewrite !lookup_insert_ne by congruence.
Qed.

End StateProperties.

Lemma set_then_get_witness :
  let quiz : gmap string (JsValue Z) := {["score"%string := Prim 0]} in
  let state := Obj ({["quiz"%string := Obj quiz]} : gmap string (JsValue Z)) in
  let state' := Obj (<["quiz"%string := Obj (<["score"%string := Prim 5]> quiz)]>
                       ({["quiz"%string := Obj quiz]} : gmap string (JsValue Z))) in
  StateManager.set state "quiz.score" (Prim 5) = Some state'
  /\ StateManager.get state' "quiz.score" = Some (Prim 5).
Proof.
  intros quiz state state'.
  assert (H : StateManager.set state "quiz.score" (Prim 5) = Some state')
    by reflexivity.
  split; [exact H |].
  exact (set_then_get state "quiz.score" (Prim 5) state' H).
Defined.


Lemma update_publishes_countries_witness :
  let countries : gmap string (JsValue Z) := {["loaded"%string := Prim 0]} in
  let fields : gmap string (JsValue Z) :=
    <["theme"%string := Prim 7]> {["countries"%string := Obj countries]} in
  fields !! "countries"%string = Some (Obj countries)
  /\ exists state',
      StateManager.update (Obj fields) (loadUpdates (Prim 1) (Prim 2) (Prim 3) (Prim 4))
      = (state', true)
      /\ StateManager.get state' "countries.loaded" = Some (Prim 1)
      /\ StateManager.get state' "countries.data" = Some (Prim 2)
      /\ StateManager.get state' "countries.byId" = Some (Prim 3)
      /\ StateManager.get state' "countries.byName" = Some (Prim 4)
      /\ forall key, key <> "countries"%string ->
                     StateManager.property (Some state') key
                     = StateManager.property (Some (Obj fields)) key.
Proof.
  intros countries fields.
  assert (H : fields !! "countries"%string = Some (Obj countries)) by reflexivity.
  split; [exact H |].
  exact (update_publishes_countries fields countries (Prim 1) (Prim 2) (Prim 3) (Prim 4) H).
Defined.

Example get_missing_is_undefined :
  let state := Obj ({["theme"%string := Prim 7]} : gmap string (JsValue Z)) in
  StateManager.get state "quiz.score" = None
  /\ StateManager.get state "theme.name" = None
  /\ StateManager.set state "quiz.score" (Prim 1) = None
  /\ StateManager.set state "theme.name" (Prim 1) = None.
Proof. repeat split. Qed.

(** ** Render callbacks *)

Lemma unsubscribe_absent callbacks callback :
  callback ∉ callbacks -> unsubscribe callbacks callback = callbacks.
Proof.
  induction callbacks as [| cb rest IH]; intros Hnot; simpl; [reflexivity |].
  apply not_elem_of_cons in Hnot as [Hne Hnot].
  destruct (Nat.eqb_spec cb callback); [congruence |].
  now rewrite IH.
Qed.

Lemma unsubscribe_app_absent callbacks callback :
  callback ∉ callbacks ->
  unsubscribe (callbacks ++ [callback]) callback = callbacks.
Proof.
  induction callbacks as [| cb rest IH]; intros Hnot; simpl.
  - now rewrite Nat.eqb_refl.
  - apply not_elem_of_cons in Hnot as [Hne Hnot].
    destruct (Nat.eqb_spec cb callback); [congruence |].
    now rewrite IH.
Qed.

Lemma unsubscribe_present callbacks callback :
  callback ∈ callbacks ->
  callback :: unsubscribe callbacks callback ≡ₚ callbacks.
Proof.
  induction callbacks as [| cb rest IH]; intros Hin; simpl.
  - now apply not_elem_of_nil in Hin.
  - destruct (Nat.eqb_spec cb callback) as [-> | Hne]; [reflexivity |].
    apply elem_of_cons in Hin as [-> | Hin]; [congruence |].
    rewrite Permutation_swap. now rewrite IH.
Qed.

(** X28. Registering a render callback and then calling the function
    that [onRender] returned removes one registration of that callback: the
    registered callbacks are the same as before, each as many times. When
    the callback was not registered before, the list is exactly as before;
    otherwise it is the earliest registration that goes. Calling the
    function for a callback that is not registered changes nothing. *)
Theorem onRender_unsubscribe (onRenderCallbacks : list nat) (callback : nat) :
  unsubscribe (onRender onRenderCallbacks callback) callback ≡ₚ onRenderCallbacks
  /\ (callback ∉ onRenderCallbacks ->
      unsubscribe (onRender onRenderCallbacks callback) callback = onRenderCallbacks)
  /\ (callback ∉ onRenderCallbacks ->
      unsubscribe onRenderCallbacks callback = onRenderCallbacks).
Proof.
  split; [| split].
  - unfold onRender.
    assert (Hin : callback ∈ onRenderCallbacks ++ [callback])
      by (apply elem_of_app; right; now left).
    apply unsubscribe_present in Hin.
    apply (Permutation_cons_inv (a := callback)).
    rewrite Hin. symmetry. apply Permutation_cons_append.
  - apply unsubscribe_app_absent.
  - apply unsubscribe_absent.
Qed.

Example onRender_unsubscribe_earliest :
  unsubscribe (onRender [1; 2]%nat 1%nat) 1%nat = [2; 1]%nat.
Proof. reflexivity. Qed.

(** ** What ingestion guarantees for names and ids *)

(** X29. Every ingested country has a name that is not empty: a record
    without a name, or with an empty one, gets the placeholder. *)
Theorem processFeatures_names_nonempty (features : list Feature.t) (country : Country.t) :
  country ∈ processFeatures features ->
  Country.name country <> ""%string.
Proof.
  intros Hin. apply list_elem_of_lookup in Hin as [index Hlookup].
  rewrite processFeatures_lookup in Hlookup.
  destruct (features !! index) as [feature |]; [| discriminate].
  injection Hlookup as <-.
  unfold processFeature; cbn [Country.name]. unfold nameOrElse.
  destruct (propsName feature) as [n |]; [| discriminate].
  destruct (String.eqb_spec n ""); [discriminate | assumption].
Qed.

Lemma processFeatures_names_nonempty_witness :
  let features := [Feature.mk (Some 4) (Some (Some ""%string)) (Polygon []);
                   Feature.mk None None (Polygon [])] in
  let country := processFeature (Feature.mk None None (Polygon [])) 1 in
  country ∈ processFeatures features
  /\ Country.name country <> ""%string.
Proof.
  intros features country.
  assert (Hin : country ∈ processFeatures features) by (right; left).
  split; [exact Hin |].
  exact (processFeatures_names_nonempty features country Hin).
Defined.

(** X30. Only the first record of a payload can get the id 0: a country
    at any later position has an id different from 0, whatever the record
    declares. *)
Theorem processFeatures_zero_id_only_first
  (features : list Feature.t) (index : nat) (country : Country.t) :
  processFeatures features !! index = Some country ->
  Country.id country = 0 ->
  index = 0%nat.
Proof.
  intros Hlookup Hzero.
  rewrite processFeatures_lookup in Hlookup.
  destruct (features !! index) as [feature |]; [| discriminate].
  injection Hlookup as <-.
  unfold processFeature in Hzero; cbn [Country.id] in Hzero.
  unfold JS.orElse in Hzero.
  destruct (Feature.id feature) as [d |]; [| lia].
  destruct (Z.eqb_spec d 0); lia.
Qed.

Lemma processFeatures_zero_id_only_first_witness :
  let features := [Feature.mk None None (Polygon []);
                   Feature.mk (Some 0) None (Polygon [])] in
  let country := processFeature (Feature.mk None None (Polygon [])) 0 in
  processFeatures features !! 0%nat = Some country
  /\ Country.id country = 0
  /\ 0%nat = 0%nat.
Proof.
  intros features country.
  assert (H1 : processFeatures features !! 0%nat = Some country) by reflexivity.
  assert (H2 : Country.id country = 0) by reflexivity.
  split; [exact H1 |]. split; [exact H2 |].
  exact (processFeatures_zero_id_only_first features 0 country H1 H2).
Defined.
